(** * A shallow embedding of the game engine of [src/tetris.py]

    The locked-cell store [locked_positions : Dict[Tuple[int,int], color]]
    is a [gmap (Z * Z) color]; the dense grid [List[List[color]]] is a list
    of rows; a [Piece] is a record updated functionally where the Python code
    mutates it in place; functions that mutate their argument return the new
    value of it. *)

From Stdlib Require Import ZArith Lia Sorting.Sorted Sorting.Permutation.
From stdpp Require Import base list gmap fin_maps.

Open Scope Z_scope.

Abbreviation color := (Z * Z * Z)%type.
Abbreviation coord := (Z * Z)%type.
Abbreviation locked_map := (gmap coord color).
Abbreviation grid_t := (list (list color)).

(** ** Game constants *)

Definition GRID_WIDTH : Z := 10.
Definition GRID_HEIGHT : Z := 20.
Definition BLACK : color := (0, 0, 0).

Definition COLOR_I : color := (0, 240, 240).
Definition COLOR_O : color := (240, 240, 0).
Definition COLOR_T : color := (160, 0, 240).
Definition COLOR_S : color := (0, 240, 0).
Definition COLOR_Z : color := (240, 0, 0).
Definition COLOR_J : color := (0, 0, 240).
Definition COLOR_L : color := (240, 160, 0).

(** Python's [range(n)] over ints. *)
Definition range (n : Z) : list Z := map Z.of_nat (seq 0 (Z.to_nat n)).

(** ** Tetromino definitions: four rotations of four (dx, dy) offsets *)

Definition shape_I : list (list coord) :=
  [ [(0, 0); (-1, 0); (1, 0); (2, 0)];
    [(0, 0); (0, -1); (0, 1); (0, 2)];
    [(0, 0); (-1, 0); (1, 0); (2, 0)];
    [(0, 0); (0, -1); (0, 1); (0, 2)] ].
Definition shape_O : list (list coord) :=
  [ [(0, 0); (1, 0); (0, 1); (1, 1)];
    [(0, 0); (1, 0); (0, 1); (1, 1)];
    [(0, 0); (1, 0); (0, 1); (1, 1)];
    [(0, 0); (1, 0); (0, 1); (1, 1)] ].
Definition shape_T : list (list coord) :=
  [ [(0, 0); (-1, 0); (1, 0); (0, -1)];
    [(0, 0); (0, -1); (0, 1); (1, 0)];
    [(0, 0); (-1, 0); (1, 0); (0, 1)];
    [(0, 0); (0, -1); (0, 1); (-1, 0)] ].
Definition shape_S : list (list coord) :=
  [ [(0, 0); (-1, 0); (0, -1); (1, -1)];
    [(0, 0); (0, -1); (1, 0); (1, 1)];
    [(0, 0); (-1, 0); (0, -1); (1, -1)];
    [(0, 0); (0, -1); (1, 0); (1, 1)] ].
Definition shape_Z : list (list coord) :=
  [ [(0, 0); (1, 0); (0, -1); (-1, -1)];
    [(0, 0); (0, -1); (-1, 0); (-1, 1)];
    [(0, 0); (1, 0); (0, -1); (-1, -1)];
    [(0, 0); (0, -1); (-1, 0); (-1, 1)] ].
Definition shape_J : list (list coord) :=
  [ [(0, 0); (-1, 0); (1, 0); (-1, -1)];
    [(0, 0); (0, -1); (0, 1); (1, -1)];
    [(0, 0); (-1, 0); (1, 0); (1, 1)];
    [(0, 0); (0, -1); (0, 1); (-1, 1)] ].
Definition shape_L : list (list coord) :=
  [ [(0, 0); (-1, 0); (1, 0); (1, -1)];
    [(0, 0); (0, -1); (0, 1); (1, 1)];
    [(0, 0); (-1, 0); (1, 0); (-1, 1)];
    [(0, 0); (0, -1); (0, 1); (-1, -1)] ].

Definition SHAPES : list (list (list coord)) :=
  [shape_I; shape_O; shape_T; shape_S; shape_Z; shape_J; shape_L].
Definition SHAPE_COLORS : list color :=
  [COLOR_I; COLOR_O; COLOR_T; COLOR_S; COLOR_Z; COLOR_J; COLOR_L].

(** ** Pieces

    [shape_index] is an index into [SHAPES]; the code only ever builds
    pieces from [random.randrange(len(SHAPES))], so the index is one of the
    seven [kind]s, numbered in the order of [SHAPES]. The fields [x] and [y]
    of the Python class are [px] and [py] here. *)

Inductive kind := KI | KO | KT | KS | KZ | KJ | KL.

Definition kind_index (k : kind) : nat :=
  match k with KI => 0 | KO => 1 | KT => 2 | KS => 3 | KZ => 4 | KJ => 5 | KL => 6 end%nat.

Record Piece := mkPiece {
  px : Z;
  py : Z;
  shape_index : kind;
  rotation : Z
}.

(** [self.shape = SHAPES[shape_index]], [self.color = SHAPE_COLORS[...]] *)
Definition piece_shape (p : Piece) : list (list coord) :=
  nth (kind_index (shape_index p)) SHAPES [].
Definition piece_color (p : Piece) : color :=
  nth (kind_index (shape_index p)) SHAPE_COLORS BLACK.

(** [Piece.__init__]: rotation starts at 0. *)
Definition Piece_init (x y : Z) (k : kind) : Piece := mkPiece x y k 0.

Definition set_x (p : Piece) (x : Z) : Piece :=
  mkPiece x (py p) (shape_index p) (rotation p).
Definition set_y (p : Piece) (y : Z) : Piece :=
  mkPiece (px p) y (shape_index p) (rotation p).
Definition set_rotation (p : Piece) (r : Z) : Piece :=
  mkPiece (px p) (py p) (shape_index p) r.

(** [get_cells]: [offsets = self.shape[self.rotation % 4]] (Python's [%]
    with a positive divisor is [Z.modulo]). *)
Definition get_cells (p : Piece) : list coord :=
  map (fun '(dx, dy) => (px p + dx, py p + dy))
    (nth (Z.to_nat (rotation p mod 4)) (piece_shape p) []).

(** [get_new_piece] for a given outcome of the random choice. *)
Definition get_new_piece (k : kind) : Piece := Piece_init (GRID_WIDTH / 2) 0 k.

(** ** The dense grid *)

Definition in_grid (x y : Z) : bool :=
  (0 <=? y) && (y <? GRID_HEIGHT) && (0 <=? x) && (x <? GRID_WIDTH).

(** [grid[y][x]] for in-range indices. *)
Definition grid_get (g : grid_t) (x y : Z) : option color :=
  g !! Z.to_nat y ≫= fun row => row !! Z.to_nat x.

(** [grid[y][x] = c] *)
Definition grid_set (g : grid_t) (x y : Z) (c : color) : grid_t :=
  <[Z.to_nat y := <[Z.to_nat x := c]> (default [] (g !! Z.to_nat y))]> g.

Definition blank_grid : grid_t :=
  map (fun _ => map (fun _ => BLACK) (range GRID_WIDTH)) (range GRID_HEIGHT).

(** [create_grid]: write every in-range item of [locked] into a black grid. *)
Definition create_grid (locked : locked_map) : grid_t :=
  map_fold (fun (k : coord) (c : color) (g : grid_t) =>
              let '(x, y) := k in
              if in_grid x y then grid_set g x y c else g)
           blank_grid locked.

(** ** Collision *)

(** [accepted = [(x, y) for y in range(H) for x in range(W) if grid[y][x] == BLACK]] *)
Definition accepted (g : grid_t) : list coord :=
  concat (map (fun y =>
    List.filter (fun k => bool_decide (grid_get g k.1 k.2 = Some BLACK))
           (map (fun x => (x, y)) (range GRID_WIDTH)))
    (range GRID_HEIGHT)).

Fixpoint valid_cells (acc : list coord) (cells : list coord) : bool :=
  match cells with
  | [] => true
  | (x, y) :: cs =>
      if (x <? 0) || (GRID_WIDTH <=? x) || (GRID_HEIGHT <=? y) then false
      else if (0 <=? y) && negb (bool_decide ((x, y) ∈ acc)) then false
      else valid_cells acc cs
  end.

Definition valid_space (p : Piece) (g : grid_t) : bool :=
  valid_cells (accepted g) (get_cells p).

(** ** Locking, row clearing, loss *)

Definition lock_piece (p : Piece) (locked : locked_map) : locked_map :=
  fold_left (fun m pos => <[pos := piece_color p]> m) (get_cells p) locked.

(** [sorted(keys, key=lambda p: p[1], reverse=True)]: a stable sort by
    descending [y] (insertion sort; an element goes before the first
    element whose [y] is not larger). *)
Fixpoint insert_desc (k : coord) (l : list coord) : list coord :=
  match l with
  | [] => [k]
  | k' :: l' => if k'.2 <=? k.2 then k :: l else k' :: insert_desc k l'
  end.
Fixpoint sort_desc (l : list coord) : list coord :=
  match l with
  | [] => []
  | k :: l' => insert_desc k (sort_desc l')
  end.

(** [shift = sum(1 for row in rows_to_clear if y < row)] *)
Fixpoint shift_of (rows : list Z) (y : Z) : Z :=
  match rows with
  | [] => 0
  | r :: rs => (if y <? r then 1 else 0) + shift_of rs y
  end.

(** One iteration of the moving loop; [None] is a [KeyError] of [pop]. *)
Definition move_step (rows : list Z) (st : option locked_map) (key : coord)
    : option locked_map :=
  match st with
  | None => None
  | Some m =>
      let '(x, y) := key in
      let shift := shift_of rows y in
      if 0 <? shift then
        match m !! key with
        | None => None
        | Some c => Some (<[(x, y + shift) := c]> (delete key m))
        end
      else Some m
  end.

Definition move_rows (rows : list Z) (keys : list coord) (m : locked_map)
    : option locked_map :=
  fold_left (move_step rows) keys (Some m).

Definition row_complete (g : grid_t) (y : Z) : bool :=
  negb (bool_decide (BLACK ∈ default [] (g !! Z.to_nat y))).

Definition delete_rows (rows : list Z) (locked : locked_map) : locked_map :=
  fold_left (fun m y => fold_left (fun m x => delete (x, y) m) (range GRID_WIDTH) m)
            rows locked.

(** [rows_to_clear]: the rows [y] in [range(H)] with [BLACK not in grid[y]]. *)
Definition completed_rows (g : grid_t) : list Z :=
  List.filter (fun y => row_complete g y) (range GRID_HEIGHT).

(** [clear_rows(grid, locked)]: returns the count and the new store;
    [locked.keys()] is enumerated in the map's own order, which only
    decides the relative order of keys with equal [y] after sorting. *)
Definition clear_rows (g : grid_t) (locked : locked_map) : option (Z * locked_map) :=
  let rows_to_clear := completed_rows g in
  match rows_to_clear with
  | [] => Some (0, locked)
  | _ =>
      let locked1 := delete_rows rows_to_clear locked in
      let keys := sort_desc ((map_to_list locked1).*1) in
      match move_rows rows_to_clear keys locked1 with
      | None => None
      | Some m => Some (Z.of_nat (length rows_to_clear), m)
      end
  end.

Definition check_lost (locked : locked_map) : bool :=
  existsb (fun k => k.2 <? 1) ((map_to_list locked).*1).

(** The scoring branch of [main] after a lock. *)
Definition score_after_clear (cleared score : Z) : Z :=
  if cleared =? 1 then score + 100
  else if cleared =? 2 then score + 300
  else if cleared =? 3 then score + 500
  else if cleared >=? 4 then score + 800
  else score.

(** ** Rotation with wall kicks *)

(** The loop [for dx in kicks]: returns whether a kick succeeded and the
    piece as the loop leaves it. *)
Fixpoint kick_loop (kicks : list Z) (p : Piece) (g : grid_t) : bool * Piece :=
  match kicks with
  | [] => (false, p)
  | dx :: ks =>
      let old_x := px p in
      let p' := set_x p (px p + dx) in
      if valid_space p' g then (true, p')
      else kick_loop ks (set_x p' old_x) g
  end.

Definition try_rotate_with_kicks (p : Piece) (g : grid_t) : bool * Piece :=
  let prev_rot := rotation p in
  let p1 := set_rotation p ((rotation p + 1) mod 4) in
  if valid_space p1 g then (true, p1)
  else
    let '(ok, p2) := kick_loop [1; -1; 2; -2] p1 g in
    if ok then (true, p2) else (false, set_rotation p2 prev_rot).

(** ** Hard drop

    [while valid_space(piece, grid): piece.y += 1] then [piece.y -= 1].
    The loop is run on fuel; [None] means the fuel ran out. Every rotation
    state contains the offset (0, 0), so the loop stops as soon as
    [py >= GRID_HEIGHT], and [GRID_HEIGHT + 1 - py] iterations suffice. *)
Fixpoint drop_loop (fuel : nat) (p : Piece) (g : grid_t) : option Piece :=
  match fuel with
  | O => None
  | S f => if valid_space p g then drop_loop f (set_y p (py p + 1)) g else Some p
  end.

Definition hard_drop (p : Piece) (g : grid_t) : option Piece :=
  match drop_loop (Z.to_nat (GRID_HEIGHT + 1 - py p)) p g with
  | None => None
  | Some p' => Some (set_y p' (py p' - 1))
  end.

Example ex_spawn_cells :
  get_cells (get_new_piece KT) = [(5, 0); (4, 0); (6, 0); (5, -1)].
Proof. reflexivity. Qed.

Example ex_valid_empty : valid_space (get_new_piece KT) (create_grid ∅) = true.
Proof. vm_compute. reflexivity. Qed.

(** ** Reference definition for the rotation claim, from the spec's words:
    rotate in place, else the kicks +1, -1, +2, -2 from the original pivot
    against the new rotation, else the piece as it was. *)
Definition rotate_spec (p : Piece) (g : grid_t) : bool * Piece :=
  let q := set_rotation p ((rotation p + 1) mod 4) in
  if valid_space q g then (true, q)
  else if valid_space (set_x q (px p + 1)) g then (true, set_x q (px p + 1))
  else if valid_space (set_x q (px p - 1)) g then (true, set_x q (px p - 1))
  else if valid_space (set_x q (px p + 2)) g then (true, set_x q (px p + 2))
  else if valid_space (set_x q (px p - 2)) g then (true, set_x q (px p - 2))
  else (false, p).

(** Where the moving loop of [clear_rows] sends a remaining cell. *)
Definition shifted (rows : list Z) (k : coord) : coord :=
  (k.1, k.2 + shift_of rows k.2).

(** A board whose row 5 is full, with one more cell just above it. *)
Definition board_row5 : locked_map :=
  list_to_map (((0, 4), COLOR_T) :: map (fun x => ((x, 5), COLOR_I)) (range GRID_WIDTH)).

(** ** The rest of the engine: [in_bounds] and one frame of [main]

    [in_bounds(piece)]: the bound tests of [valid_space] alone. *)
Definition in_bounds (p : Piece) : bool :=
  forallb (fun '(x, y) => negb ((x <? 0) || (GRID_WIDTH <=? x) || (GRID_HEIGHT <=? y)))
    (get_cells p).

(** Gravity in [main]: [current_piece.y += 1]; if the placement is not
    valid, [current_piece.y -= 1] and [change_piece = True]. *)
Definition gravity (p : Piece) (change : bool) (locked : locked_map) : Piece * bool :=
  let p1 := set_y p (py p + 1) in
  if negb (valid_space p1 (create_grid locked)) then (set_y p1 (py p1 - 1), true)
  else (p1, change).

(** The arrow keys in [main]: move by one, and move back when the new
    placement is not valid. *)
Definition move_left (p : Piece) (locked : locked_map) : Piece :=
  let p1 := set_x p (px p - 1) in
  if negb (valid_space p1 (create_grid locked)) then set_x p1 (px p1 + 1) else p1.
Definition move_right (p : Piece) (locked : locked_map) : Piece :=
  let p1 := set_x p (px p + 1) in
  if negb (valid_space p1 (create_grid locked)) then set_x p1 (px p1 - 1) else p1.
Definition move_down (p : Piece) (locked : locked_map) : Piece :=
  let p1 := set_y p (py p + 1) in
  if negb (valid_space p1 (create_grid locked)) then set_y p1 (py p1 - 1) else p1.

(** What one iteration of [main]'s loop reads from outside: whether
    [fall_time >= fall_speed], whether [move_cooldown >= move_delay]
    (both only compared, never otherwise used by the game logic), the
    pressed keys, and the outcome of [random.randrange] for
    [get_new_piece()] in the lock step. Quit events end the program and
    are not modelled. *)
Record FrameInput := mkFrameInput {
  fall_due : bool;
  move_ready : bool;
  key_left : bool;
  key_right : bool;
  key_down : bool;
  key_up : bool;
  key_space : bool;
  new_kind : kind
}.

(** The state [main] keeps between iterations (timers apart). *)
Record Game := mkGame {
  locked_positions : locked_map;
  current_piece : Piece;
  next_piece : Piece;
  change_piece : bool;
  score : Z;
  run : bool
}.

(** [main]'s initial state. *)
Definition initial_game (k1 k2 : kind) : Game :=
  mkGame ∅ (get_new_piece k1) (get_new_piece k2) false 0 true.

(** Gravity and the keys of one iteration; [None] when the hard-drop
    loop runs out of fuel. *)
Definition frame_moves (locked : locked_map) (p : Piece) (change : bool) (inp : FrameInput)
    : option (Piece * bool) :=
  let '(p, change) := if fall_due inp then gravity p change locked else (p, change) in
  let p := if key_left inp && move_ready inp then move_left p locked else p in
  let p := if key_right inp && move_ready inp then move_right p locked else p in
  let p := if key_down inp && move_ready inp then move_down p locked else p in
  let p := if key_up inp && move_ready inp
           then snd (try_rotate_with_kicks p (create_grid locked)) else p in
  if key_space inp && move_ready inp then
    match hard_drop p (create_grid locked) with
    | None => None
    | Some p' => Some (p', true)
    end
  else Some (p, change).

(** [if y >= 0: if 0 <= x < GRID_WIDTH and 0 <= y < GRID_HEIGHT: grid[y][x] = color] *)
Definition overlay_cell (c : color) (g : grid_t) (k : coord) : grid_t :=
  let '(x, y) := k in
  if 0 <=? y then
    if (0 <=? x) && (x <? GRID_WIDTH) && (0 <=? y) && (y <? GRID_HEIGHT)
    then grid_set g x y c else g
  else g.

(** The grid drawn in [main]: the locked cells with the current piece on top. *)
Definition overlay_current_piece (g : grid_t) (p : Piece) : grid_t :=
  fold_left (overlay_cell (piece_color p)) (get_cells p) g.

(** One iteration of [main]'s loop: moves, the drawn grid, and, when the
    piece has landed, the lock step: [lock_piece], [clear_rows] on the
    drawn grid, the score, the next pieces and [check_lost]. *)
Definition frame (st : Game) (inp : FrameInput) : option Game :=
  match frame_moves (locked_positions st) (current_piece st) (change_piece st) inp with
  | None => None
  | Some (p, change) =>
      let grid := overlay_current_piece (create_grid (locked_positions st)) p in
      if change then
        let locked1 := lock_piece p (locked_positions st) in
        match clear_rows grid locked1 with
        | None => None
        | Some (cleared, locked2) =>
            Some (mkGame locked2 (next_piece st) (get_new_piece (new_kind inp)) false
                    (score_after_clear cleared (score st))
                    (if check_lost locked2 then false else run st))
        end
      else Some (mkGame (locked_positions st) p (next_piece st) change (score st) (run st))
  end.

(** The states of [main]'s loop: an iteration runs while [run] holds. *)
Inductive reachable : Game -> Prop :=
  | reach_init (k1 k2 : kind) : reachable (initial_game k1 k2)
  | reach_step (st st' : Game) (inp : FrameInput) :
      reachable st -> run st = true -> frame st inp = Some st' -> reachable st'.

(** Every locked key has [x] in [0, GRID_WIDTH) and [y < GRID_HEIGHT]. *)
Definition store_in_bounds (locked : locked_map) : Prop :=
  forall x y, is_Some (locked !! (x, y)) -> 0 <= x < GRID_WIDTH /\ y < GRID_HEIGHT.

(** Dimensions of a dense grid. *)
Definition grid_wf (g : grid_t) : Prop :=
  length g = Z.to_nat GRID_HEIGHT /\
  forall i row, g !! i = Some row -> length row = Z.to_nat GRID_WIDTH.

(** Inputs of the examples: a hard drop, and a frame where nothing happens. *)
Definition drop_input : FrameInput := mkFrameInput false true false false false false true KT.
Definition idle_input : FrameInput := mkFrameInput false false false false false false false KT.

(** What every reachable state of [main]'s loop keeps. *)
Definition game_inv (st : Game) : Prop :=
  store_in_bounds (locked_positions st) /\
  (forall k c, locked_positions st !! k = Some c -> In c SHAPE_COLORS) /\
  in_bounds (current_piece st) = true /\ in_bounds (next_piece st) = true /\
  change_piece st = false /\ 0 <= score st.

(** A first game whose first frame hard-drops an O piece. *)
Definition ex_start : Game := initial_game KO KT.
Definition ex_landed : Game := default ex_start (frame ex_start drop_input).
Definition ex_drop_piece : Piece :=
  fst (default (current_piece ex_start, false)
         (frame_moves ∅ (current_piece ex_start) false drop_input)).

(** * Lemmas *)

Lemma Z_mod_4_cases (r : Z) :
  r mod 4 = 0 \/ r mod 4 = 1 \/ r mod 4 = 2 \/ r mod 4 = 3.
Proof. pose proof (Z.mod_pos_bound r 4). lia. Qed.

Lemma in_range (n z : Z) : In z (range n) <-> 0 <= z < n.
Proof.
  unfold range. rewrite in_map_iff. split.
  - intros [k [<- Hk]]. apply in_seq in Hk. lia.
  - intros Hz. exists (Z.to_nat z). split; [lia|]. apply in_seq. lia.
Qed.

Lemma get_cells_length (p : Piece) : length (get_cells p) = 4%nat.
Proof.
  destruct p as [x y k r]. unfold get_cells. rewrite length_map. simpl.
  destruct (Z_mod_4_cases r) as [H|[H|[H|H]]]; rewrite H; destruct k; reflexivity.
Qed.

(** Every rotation state contains the pivot itself. *)
Lemma pivot_in_cells (p : Piece) : (px p, py p) ∈ get_cells p.
Proof.
  destruct p as [x y k r]. unfold get_cells. simpl.
  destruct (Z_mod_4_cases r) as [H|[H|[H|H]]]; rewrite H; destruct k; simpl;
    rewrite !Z.add_0_r; left.
Qed.

Lemma accepted_spec (g : grid_t) (x y : Z) :
  (x, y) ∈ accepted g <->
  0 <= x < GRID_WIDTH /\ 0 <= y < GRID_HEIGHT /\ grid_get g x y = Some BLACK.
Proof.
  unfold accepted. rewrite list_elem_of_In, in_concat. split.
  - intros [l [Hl Hin]]. apply in_map_iff in Hl as [y' [<- Hy']].
    apply filter_In in Hin as [Hin Hb]. apply in_map_iff in Hin as [x' [Heq Hx']].
    injection Heq as -> ->. apply bool_decide_eq_true in Hb.
    apply in_range in Hx', Hy'. simpl in Hb. auto.
  - intros (Hx & Hy & Hg). eexists. split.
    + apply in_map_iff. exists y. split; [reflexivity|]. apply in_range; exact Hy.
    + apply filter_In. split.
      * apply in_map_iff. exists x. split; [reflexivity|]. apply in_range; exact Hx.
      * apply bool_decide_eq_true. exact Hg.
Qed.

Lemma valid_cells_spec (acc cells : list coord) :
  valid_cells acc cells = true <->
  forall x y, (x, y) ∈ cells ->
    0 <= x < GRID_WIDTH /\ y < GRID_HEIGHT /\ (0 <= y -> (x, y) ∈ acc).
Proof.
  induction cells as [|[x y] cs IH]; simpl.
  - split; [intros _ x y Hin; inversion Hin | reflexivity].
  - destruct ((x <? 0) || (GRID_WIDTH <=? x) || (GRID_HEIGHT <=? y)) eqn:Hb.
    + split; [discriminate|]. intros H.
      destruct (H x y ltac:(left)) as (H1 & H2 & _).
      rewrite !orb_true_iff, Z.ltb_lt, !Z.leb_le in Hb. lia.
    + rewrite !orb_false_iff, Z.ltb_ge, !Z.leb_gt in Hb.
      destruct ((0 <=? y) && negb (bool_decide ((x, y) ∈ acc))) eqn:Hc.
      * split; [discriminate|]. intros H.
        apply andb_true_iff in Hc as [Hc1 Hc2]. apply Z.leb_le in Hc1.
        apply negb_true_iff, bool_decide_eq_false in Hc2.
        destruct (H x y ltac:(left)) as (_ & _ & H3). auto.
      * rewrite IH. split.
        -- intros H x' y' Hin. apply elem_of_cons in Hin as [Heq | Hin].
           ++ injection Heq as -> ->. repeat split; try lia.
              intros Hy0. apply andb_false_iff in Hc as [Hc | Hc].
              ** apply Z.leb_gt in Hc. lia.
              ** apply negb_false_iff, bool_decide_eq_true in Hc. exact Hc.
           ++ auto.
        -- intros H x' y' Hin. apply H. right. exact Hin.
Qed.

Lemma valid_space_cells (p : Piece) (g : grid_t) :
  valid_space p g = true <->
  forall x y, (x, y) ∈ get_cells p ->
    0 <= x < GRID_WIDTH /\ y < GRID_HEIGHT /\ (0 <= y -> grid_get g x y = Some BLACK).
Proof.
  unfold valid_space. rewrite valid_cells_spec. split.
  - intros H x y Hin. destruct (H x y Hin) as (H1 & H2 & H3). repeat split; try lia.
    intros Hy. apply accepted_spec in H3 as (_ & _ & H3); auto.
  - intros H x y Hin. destruct (H x y Hin) as (H1 & H2 & H3). repeat split; try lia.
    intros Hy. apply accepted_spec. repeat split; auto; lia.
Qed.

Lemma set_y_set_y (p : Piece) (a b : Z) : set_y (set_y p a) b = set_y p b.
Proof. destruct p; reflexivity. Qed.

Lemma set_y_py (p : Piece) : set_y p (py p) = p.
Proof. destruct p; reflexivity. Qed.

Lemma valid_py_lt (p : Piece) (g : grid_t) :
  valid_space p g = true -> py p < GRID_HEIGHT.
Proof.
  intros H. apply valid_space_cells with (x := px p) (y := py p) in H as (_ & H & _);
    [exact H | apply pivot_in_cells].
Qed.

(** The loop of the hard drop, from a valid piece with enough fuel: it stops
    at the first row [py q + k + 1] whose placement is invalid. *)
Lemma drop_loop_spec (g : grid_t) (n : nat) :
  forall q, valid_space q g = true -> GRID_HEIGHT + 1 <= py q + Z.of_nat n ->
  exists k, 0 <= k /\ drop_loop n q g = Some (set_y q (py q + k + 1)) /\
    valid_space (set_y q (py q + k)) g = true /\
    valid_space (set_y q (py q + k + 1)) g = false.
Proof.
  induction n as [|n IH]; intros q Hv Hn.
  - pose proof (valid_py_lt q g Hv). unfold GRID_HEIGHT in *. lia.
  - simpl. rewrite Hv.
    destruct (valid_space (set_y q (py q + 1)) g) eqn:Hv1.
    + destruct (IH (set_y q (py q + 1)) Hv1) as (k & Hk & Hd & Hk1 & Hk2);
        [simpl; lia|].
      simpl in Hd, Hk1, Hk2. rewrite !set_y_set_y in Hd, Hk1, Hk2.
      exists (k + 1).
      replace (py q + (k + 1) + 1) with (py q + 1 + k + 1) by lia.
      replace (py q + (k + 1)) with (py q + 1 + k) by lia.
      repeat split; auto; lia.
    + exists 0. split; [lia|]. rewrite !Z.add_0_r, set_y_py.
      destruct n as [|n].
      * pose proof (valid_py_lt q g Hv). unfold GRID_HEIGHT in *. lia.
      * simpl. rewrite Hv1. repeat split; auto.
Qed.

Lemma lock_piece_lookup (c : color) (cells : list coord) :
  forall (m : locked_map) k,
  fold_left (fun m pos => <[pos := c]> m) cells m !! k =
    if bool_decide (k ∈ cells) then Some c else m !! k.
Proof.
  induction cells as [|pos cs IH]; intros m k; simpl.
  - reflexivity.
  - rewrite IH. destruct (bool_decide (k ∈ cs)) eqn:Hcs.
    + apply bool_decide_eq_true in Hcs.
      rewrite bool_decide_eq_true_2; [reflexivity|]. right. exact Hcs.
    + apply bool_decide_eq_false in Hcs.
      destruct (decide (k = pos)) as [->|Hne].
      * rewrite lookup_insert_eq, bool_decide_eq_true_2; [reflexivity|]. left.
      * rewrite lookup_insert_ne by congruence.
        rewrite bool_decide_eq_false_2; [reflexivity|].
        intros Hin. apply elem_of_cons in Hin as [Hin|Hin]; contradiction.
Qed.

Lemma filter_all_false {A} (f : A -> bool) (l : list A) :
  (forall a, In a l -> f a = false) -> List.filter f l = [].
Proof.
  induction l as [|a l IH]; intros H; simpl; [reflexivity|].
  rewrite (H a (or_introl eq_refl)). apply IH. intros b Hb. apply H. right. exact Hb.
Qed.

(** ** The dense grid built by [create_grid] *)

Lemma lookup_map_list {A B} (f : A -> B) (l : list A) (i : nat) :
  map f l !! i = option_map f (l !! i).
Proof. revert i. induction l as [|a l IH]; intros [|i]; simpl; auto. Qed.

Lemma range_lookup (n : Z) (i : nat) :
  (i < Z.to_nat n)%nat -> range n !! i = Some (Z.of_nat i).
Proof. intros H. unfold range. rewrite lookup_map_list, lookup_seq_lt by exact H. reflexivity. Qed.

Lemma range_length (n : Z) : length (range n) = Z.to_nat n.
Proof. unfold range. rewrite length_map, length_seq. reflexivity. Qed.

Lemma in_grid_spec (x y : Z) :
  in_grid x y = true <-> 0 <= y < GRID_HEIGHT /\ 0 <= x < GRID_WIDTH.
Proof.
  unfold in_grid. rewrite !andb_true_iff, !Z.leb_le, !Z.ltb_lt. tauto.
Qed.

Lemma create_grid_inv (locked : locked_map) :
  length (create_grid locked) = Z.to_nat GRID_HEIGHT /\
  (forall i row, create_grid locked !! i = Some row -> length row = Z.to_nat GRID_WIDTH) /\
  (forall x y, in_grid x y = true ->
     grid_get (create_grid locked) x y = Some (default BLACK (locked !! (x, y)))).
Proof.
  unfold create_grid.
  apply (map_fold_weak_ind (fun g m =>
    length g = Z.to_nat GRID_HEIGHT /\
    (forall i row, g !! i = Some row -> length row = Z.to_nat GRID_WIDTH) /\
    (forall x y, in_grid x y = true -> grid_get g x y = Some (default BLACK (m !! (x, y)))))).
  - assert (Hb : blank_grid =
      replicate (Z.to_nat GRID_HEIGHT) (replicate (Z.to_nat GRID_WIDTH) BLACK))
      by reflexivity.
    rewrite Hb. split; [rewrite length_replicate; reflexivity|]. split.
    + intros i row H. apply lookup_replicate in H as [-> _].
      rewrite length_replicate. reflexivity.
    + intros x y Hin. apply in_grid_spec in Hin as [Hy Hx].
      rewrite lookup_empty. unfold grid_get.
      rewrite lookup_replicate_2 by lia. cbn -[replicate].
      rewrite lookup_replicate_2 by (unfold GRID_WIDTH in *; lia). reflexivity.
  - intros [x0 y0] c m g Hm (Hl & Hr & Hc).
    destruct (in_grid x0 y0) eqn:Hg0.
    + pose proof Hg0 as Hg0'. apply in_grid_spec in Hg0' as [Hy0 Hx0].
      destruct (lookup_lt_is_Some_2 g (Z.to_nat y0)) as [row0 Hrow0];
        [rewrite Hl; unfold GRID_HEIGHT in *; lia|].
      pose proof (Hr _ _ Hrow0) as Hlen0.
      unfold grid_set. rewrite Hrow0. simpl. split; [|split].
      * rewrite length_insert. exact Hl.
      * intros i row H. destruct (decide (Z.to_nat y0 = i)) as [<-|Hne].
        -- rewrite list_lookup_insert_eq in H by (rewrite Hl; unfold GRID_HEIGHT in *; lia).
           injection H as <-. rewrite length_insert. exact Hlen0.
        -- rewrite list_lookup_insert_ne in H by exact Hne. eapply Hr. exact H.
      * intros x y Hin. pose proof Hin as Hin'. apply in_grid_spec in Hin' as [Hy Hx].
        unfold grid_get.
        destruct (decide ((x, y) = (x0, y0))) as [Heq|Hne].
        -- injection Heq as -> ->.
           rewrite list_lookup_insert_eq by (rewrite Hl; unfold GRID_HEIGHT in *; lia). simpl.
           rewrite list_lookup_insert_eq by (rewrite Hlen0; unfold GRID_WIDTH in *; lia).
           rewrite lookup_insert_eq. reflexivity.
        -- rewrite lookup_insert_ne by congruence. rewrite <- (Hc x y Hin). unfold grid_get.
           destruct (decide (Z.to_nat y0 = Z.to_nat y)) as [Hyy|Hyy].
           ++ assert (y = y0) as -> by lia.
              rewrite list_lookup_insert_eq by (rewrite Hl; unfold GRID_HEIGHT in *; lia).
              rewrite Hrow0. simpl.
              rewrite list_lookup_insert_ne; [reflexivity|].
              intros Hxx. apply Hne. f_equal. lia.
           ++ rewrite list_lookup_insert_ne by exact Hyy. reflexivity.
    + split; [exact Hl|]. split; [exact Hr|].
      intros x y Hin. rewrite lookup_insert_ne; [apply Hc; exact Hin|].
      intros Heq. injection Heq as -> ->. congruence.
Qed.

Lemma create_grid_get (locked : locked_map) (x y : Z) :
  in_grid x y = true ->
  grid_get (create_grid locked) x y = Some (default BLACK (locked !! (x, y))).
Proof. apply create_grid_inv. Qed.

Lemma row_not_complete (g : grid_t) (x y : Z) :
  grid_get g x y = Some BLACK -> row_complete g y = false.
Proof.
  unfold grid_get, row_complete. destruct (g !! Z.to_nat y) as [row|]; simpl; [|discriminate].
  intros H. apply negb_false_iff, bool_decide_eq_true. eapply list_elem_of_lookup_2. exact H.
Qed.

Lemma row_complete_create_grid (locked : locked_map) (y : Z) :
  0 <= y < GRID_HEIGHT ->
  row_complete (create_grid locked) y = true <->
  forall x, 0 <= x < GRID_WIDTH -> exists c, locked !! (x, y) = Some c /\ c <> BLACK.
Proof.
  intros Hy. destruct (create_grid_inv locked) as (Hl & Hr & Hc).
  destruct (lookup_lt_is_Some_2 (create_grid locked) (Z.to_nat y)) as [row Hrow];
    [rewrite Hl; lia|].
  unfold row_complete. rewrite Hrow. simpl.
  rewrite negb_true_iff, bool_decide_eq_false. split.
  - intros Hn x Hx.
    assert (Hxy : in_grid x y = true) by (apply in_grid_spec; lia).
    pose proof (Hc x y Hxy) as Hg. unfold grid_get in Hg. rewrite Hrow in Hg. simpl in Hg.
    destruct (locked !! (x, y)) as [c|]; simpl in Hg.
    + exists c. split; [reflexivity|]. intros ->. apply Hn.
      eapply list_elem_of_lookup_2. exact Hg.
    + exfalso. apply Hn. eapply list_elem_of_lookup_2. exact Hg.
  - intros H Hin. apply list_elem_of_lookup_1 in Hin as [i Hi].
    assert (Hlt : (i < length row)%nat) by (apply lookup_lt_is_Some_1; eauto).
    rewrite (Hr _ _ Hrow) in Hlt.
    destruct (H (Z.of_nat i)) as (c & Hlc & Hcb); [unfold GRID_WIDTH in *; lia|].
    assert (Hxy : in_grid (Z.of_nat i) y = true) by (apply in_grid_spec; unfold GRID_WIDTH in *; lia).
    pose proof (Hc _ _ Hxy) as Hg. unfold grid_get in Hg. rewrite Hrow, Nat2Z.id, Hlc in Hg.
    simpl in Hg. rewrite Hi in Hg. injection Hg as Hg. congruence.
Qed.

(** ** Shifts of the row clear *)

Lemma shift_of_nonneg (rows : list Z) (y : Z) : 0 <= shift_of rows y.
Proof. induction rows as [|r rs IH]; simpl; [lia|]. destruct (y <? r); lia. Qed.

Lemma shift_of_succ (rows : list Z) (y : Z) :
  shift_of rows y =
  shift_of rows (y + 1) + Z.of_nat (length (List.filter (Z.eqb (y + 1)) rows)).
Proof.
  induction rows as [|r rs IH]; simpl; [reflexivity|].
  destruct (Z.ltb_spec y r), (Z.ltb_spec (y + 1) r), (Z.eqb_spec (y + 1) r);
    simpl length; lia.
Qed.

Lemma count_absent (rows : list Z) (a : Z) :
  a ∉ rows -> List.filter (Z.eqb a) rows = [].
Proof.
  intros H. apply filter_all_false. intros r Hr. apply Z.eqb_neq.
  intros ->. apply H, list_elem_of_In, Hr.
Qed.

Lemma count_le_1 (rows : list Z) (a : Z) :
  NoDup rows -> (length (List.filter (Z.eqb a) rows) <= 1)%nat.
Proof.
  induction rows as [|r rs IH]; intros Hnd; simpl; [lia|].
  apply NoDup_cons in Hnd as [Hr Hnd].
  destruct (Z.eqb_spec a r) as [->|_]; simpl.
  - rewrite count_absent by exact Hr. simpl. lia.
  - apply IH, Hnd.
Qed.

Section Shifts.
Variable rows : list Z.
Hypothesis rows_nodup : NoDup rows.

Lemma shift_step (y : Z) :
  y + shift_of rows y <= (y + 1) + shift_of rows (y + 1) /\
  ((y + 1) ∉ rows -> y + shift_of rows y < (y + 1) + shift_of rows (y + 1)).
Proof.
  rewrite (shift_of_succ rows y). pose proof (count_le_1 rows (y + 1) rows_nodup).
  split; [lia|]. intros Hn. rewrite count_absent by exact Hn. simpl. lia.
Qed.

Lemma shift_mono (y : Z) (n : nat) :
  y + shift_of rows y <= (y + Z.of_nat n) + shift_of rows (y + Z.of_nat n).
Proof.
  induction n as [|n IH].
  - rewrite Z.add_0_r. lia.
  - destruct (shift_step (y + Z.of_nat n)) as [H _].
    replace (y + Z.of_nat (S n)) with (y + Z.of_nat n + 1) by lia. lia.
Qed.

Lemma shift_strict (y1 y2 : Z) :
  y1 < y2 -> y2 ∉ rows -> y1 + shift_of rows y1 < y2 + shift_of rows y2.
Proof.
  intros Hlt Hn.
  pose proof (shift_mono y1 (Z.to_nat (y2 - 1 - y1))) as H1.
  replace (y1 + Z.of_nat (Z.to_nat (y2 - 1 - y1))) with (y2 - 1) in H1 by lia.
  destruct (shift_step (y2 - 1)) as [_ H2].
  replace (y2 - 1 + 1) with y2 in H2 by lia. specialize (H2 Hn). lia.
Qed.

Lemma shifted_inj (p q : coord) :
  p.2 ∉ rows -> q.2 ∉ rows -> shifted rows p = shifted rows q -> p = q.
Proof.
  destruct p as [px' py'], q as [qx qy]. unfold shifted. simpl.
  intros Hp Hq Heq. injection Heq as Hx Hy. subst qx. f_equal.
  destruct (Z.lt_trichotomy py' qy) as [Hlt|[Heq|Hgt]]; [|exact Heq|].
  - pose proof (shift_strict py' qy Hlt Hq). lia.
  - pose proof (shift_strict qy py' Hgt Hp). lia.
Qed.

Lemma shifted_ne_later (q q' : coord) :
  q'.2 <= q.2 -> 0 < shift_of rows q.2 -> q' <> shifted rows q.
Proof.
  intros Hle Hs Heq. rewrite Heq in Hle. unfold shifted in Hle. simpl in Hle. lia.
Qed.

Lemma shifted_ne_earlier (p q : coord) :
  q.2 <= p.2 -> p <> q -> shifted rows p <> q.
Proof.
  destruct p as [px' py'], q as [qx qy]. unfold shifted. simpl. intros Hle Hne Heq.
  injection Heq as Hx Hy. pose proof (shift_of_nonneg rows py').
  apply Hne. f_equal; [exact Hx|]. lia.
Qed.

End Shifts.

(** ** The moving loop of [clear_rows]

    The keys are processed by descending [y]. The invariant after a prefix
    [P] of the keys, with [Q] still to go: the keys of [Q] still hold their
    original entries, every key [p] of [P] has its entry at [shifted p], and
    nothing else is in the store. *)
Section MoveLoop.
Variable rows : list Z.
Variable m0 : locked_map.
Hypothesis rows_nodup : NoDup rows.

Abbreviation desc := (fun a b : coord => b.2 <= a.2).

Lemma move_rows_loop (Q : list coord) :
  forall (P : list coord) (m : locked_map),
  NoDup (P ++ Q) ->
  StronglySorted desc Q ->
  (forall p q, p ∈ P -> q ∈ Q -> q.2 <= p.2) ->
  (forall k, k ∈ P ++ Q -> is_Some (m0 !! k) /\ k.2 ∉ rows) ->
  (forall q, q ∈ Q -> m !! q = m0 !! q) ->
  (forall p, p ∈ P -> m !! shifted rows p = m0 !! p) ->
  (forall k, is_Some (m !! k) -> k ∈ Q \/ exists p, p ∈ P /\ k = shifted rows p) ->
  exists m', fold_left (move_step rows) Q (Some m) = Some m' /\
    (forall p, p ∈ P ++ Q -> m' !! shifted rows p = m0 !! p) /\
    (forall k, is_Some (m' !! k) -> exists p, p ∈ P ++ Q /\ k = shifted rows p).
Proof.
  induction Q as [|q Q IH]; intros P m Hnd Hss Hord Hdom H1 H2 H3.
  - exists m. rewrite app_nil_r. split; [reflexivity|]. split; [exact H2|].
    intros k Hk. destruct (H3 k Hk) as [Hin|Hex]; [inversion Hin|exact Hex].
  - apply StronglySorted_inv in Hss as [Hss Hfq].
    rewrite Forall_forall in Hfq.
    assert (Happ : (P ++ [q]) ++ Q = P ++ q :: Q) by (rewrite <- app_assoc; reflexivity).
    apply NoDup_app in Hnd as (HndP & HPQ & HndQ).
    apply NoDup_cons in HndQ as [HqQ HndQ].
    assert (HqP : q ∉ P) by (intros Hq; apply (HPQ q Hq); left).
    assert (Hqdom : is_Some (m0 !! q) /\ q.2 ∉ rows)
      by (apply Hdom, elem_of_app; right; left).
    destruct Hqdom as [[c Hc] Hqr].
    assert (Hord' : forall p q', p ∈ P ++ [q] -> q' ∈ Q -> q'.2 <= p.2).
    { intros p q' Hp Hq'. apply elem_of_app in Hp as [Hp|Hp].
      - apply Hord; [exact Hp|]. right. exact Hq'.
      - apply list_elem_of_singleton in Hp as ->. apply Hfq, Hq'. }
    assert (Hdom' : forall k, k ∈ (P ++ [q]) ++ Q -> is_Some (m0 !! k) /\ k.2 ∉ rows)
      by (rewrite Happ; exact Hdom).
    assert (Hnd' : NoDup ((P ++ [q]) ++ Q))
      by (rewrite Happ; apply NoDup_app; split; [exact HndP|];
          split; [exact HPQ|]; apply NoDup_cons; auto).
    (* the earlier keys sit at rows not above [q]'s *)
    assert (HPq : forall p, p ∈ P -> p <> q /\ q.2 <= p.2).
    { intros p Hp. split; [intros ->; contradiction|]. apply Hord; [exact Hp|]. left. }
    assert (HPr : forall p, p ∈ P -> p.2 ∉ rows)
      by (intros p Hp; apply Hdom, elem_of_app; left; exact Hp).
    destruct q as [qx qy]. simpl in *.
    rewrite (H1 (qx, qy)) by left. rewrite Hc.
    destruct (Z.ltb_spec 0 (shift_of rows qy)) as [Hs|Hs].
    + (* the cell moves to its shifted position *)
      destruct (IH (P ++ [(qx, qy)]) (<[(qx, qy + shift_of rows qy) := c]> (delete (qx, qy) m))
                Hnd' Hss Hord' Hdom') as (m' & Hm' & Hr2 & Hr3).
      * intros q' Hq'. assert (Hne : q' <> (qx, qy)) by (intros ->; contradiction).
        rewrite lookup_insert_ne.
        -- rewrite lookup_delete_ne by congruence. apply H1. right. exact Hq'.
        -- intros Heq. apply (shifted_ne_later rows (qx, qy) q'); simpl;
             [apply Hfq, Hq' | exact Hs | symmetry; exact Heq].
      * intros p Hp. apply elem_of_app in Hp as [Hp|Hp].
        -- destruct (HPq p Hp) as [Hne Hle].
           rewrite lookup_insert_ne.
           ++ rewrite lookup_delete_ne.
              ** apply H2, Hp.
              ** intros Heq. symmetry in Heq.
                 apply (shifted_ne_earlier rows p (qx, qy)); simpl; auto.
           ++ intros Heq. apply Hne. apply (shifted_inj rows rows_nodup); simpl; auto.
        -- apply list_elem_of_singleton in Hp as ->. unfold shifted. simpl.
           rewrite lookup_insert_eq. symmetry. exact Hc.
      * intros k Hk. destruct (decide (k = (qx, qy + shift_of rows qy))) as [->|Hne].
        -- right. exists (qx, qy). split; [apply elem_of_app; right; left|reflexivity].
        -- rewrite lookup_insert_ne in Hk by congruence.
           destruct (decide (k = (qx, qy))) as [->|Hne'].
           ++ rewrite lookup_delete_eq in Hk. destruct Hk as [? Hk]. discriminate.
           ++ rewrite lookup_delete_ne in Hk by congruence.
              destruct (H3 k Hk) as [Hin|(p & Hp & ->)].
              ** apply elem_of_cons in Hin as [Hin|Hin]; [contradiction|left; exact Hin].
              ** right. exists p. split; [apply elem_of_app; left; exact Hp|reflexivity].
      * exists m'. rewrite Happ in Hr2, Hr3. auto.
    + (* no completed row below: the cell stays *)
      assert (Hs0 : shift_of rows qy = 0) by (pose proof (shift_of_nonneg rows qy); lia).
      assert (Hfix : shifted rows (qx, qy) = (qx, qy))
        by (unfold shifted; simpl; rewrite Hs0, Z.add_0_r; reflexivity).
      destruct (IH (P ++ [(qx, qy)]) m Hnd' Hss Hord' Hdom') as (m' & Hm' & Hr2 & Hr3).
      * intros q' Hq'. apply H1. right. exact Hq'.
      * intros p Hp. apply elem_of_app in Hp as [Hp|Hp].
        -- apply H2, Hp.
        -- apply list_elem_of_singleton in Hp as ->. rewrite Hfix. apply H1. left.
      * intros k Hk. destruct (H3 k Hk) as [Hin|(p & Hp & ->)].
        -- apply elem_of_cons in Hin as [->|Hin].
           ++ right. exists (qx, qy). split; [apply elem_of_app; right; left|].
              symmetry. exact Hfix.
           ++ left. exact Hin.
        -- right. exists p. split; [apply elem_of_app; left; exact Hp|reflexivity].
      * exists m'. rewrite Happ in Hr2, Hr3. auto.
Qed.

End MoveLoop.

(** ** Sorting the keys, deleting the completed rows *)

Lemma insert_desc_perm (k : coord) (l : list coord) :
  Permutation (insert_desc k l) (k :: l).
Proof.
  induction l as [|a l IH]; simpl; [reflexivity|].
  destruct (a.2 <=? k.2); [reflexivity|].
  eapply perm_trans; [apply perm_skip, IH | apply perm_swap].
Qed.

Lemma sort_desc_perm (l : list coord) : Permutation (sort_desc l) l.
Proof.
  induction l as [|a l IH]; simpl; [reflexivity|].
  eapply perm_trans; [apply insert_desc_perm | apply perm_skip, IH].
Qed.

Lemma insert_desc_sorted (k : coord) (l : list coord) :
  StronglySorted (fun a b : coord => b.2 <= a.2) l ->
  StronglySorted (fun a b : coord => b.2 <= a.2) (insert_desc k l).
Proof.
  induction l as [|a l IH]; intros H; simpl.
  - repeat constructor.
  - apply StronglySorted_inv in H as [Hl Ha]. destruct (Z.leb_spec a.2 k.2).
    + constructor; [constructor; auto|]. constructor; [simpl; lia|].
      eapply Forall_impl; [exact Ha|]. simpl. intros; lia.
    + constructor; [apply IH, Hl|]. rewrite Forall_forall in Ha |- *. intros x Hx.
      apply list_elem_of_In in Hx. apply (Permutation_in _ (insert_desc_perm k l)) in Hx.
      destruct Hx as [<-|Hx]; [simpl; lia|]. apply Ha, list_elem_of_In, Hx.
Qed.

Lemma sort_desc_sorted (l : list coord) :
  StronglySorted (fun a b : coord => b.2 <= a.2) (sort_desc l).
Proof. induction l as [|a l IH]; simpl; [constructor|]. apply insert_desc_sorted, IH. Qed.

Lemma sort_keys_spec (m : locked_map) (k : coord) :
  k ∈ sort_desc ((map_to_list m).*1) <-> is_Some (m !! k).
Proof.
  rewrite list_elem_of_In. split; intros H.
  - apply (Permutation_in _ (sort_desc_perm _)), list_elem_of_In in H.
    apply list_elem_of_fmap in H as ([k' c] & -> & Hin).
    apply elem_of_map_to_list in Hin. simpl. eauto.
  - destruct H as [c Hc]. apply (Permutation_in _ (Permutation_sym (sort_desc_perm _))).
    apply list_elem_of_In, list_elem_of_fmap. exists (k, c). split; [reflexivity|].
    apply elem_of_map_to_list, Hc.
Qed.

Lemma sort_keys_nodup (m : locked_map) : NoDup (sort_desc ((map_to_list m).*1)).
Proof.
  apply NoDup_ListNoDup. eapply Permutation_NoDup; [apply Permutation_sym, sort_desc_perm|].
  apply NoDup_ListNoDup, NoDup_fst_map_to_list.
Qed.

Lemma delete_cols_lookup (y : Z) (xs : list Z) :
  forall (m : locked_map) (k : coord),
  fold_left (fun m x => delete (x, y) m) xs m !! k =
    if decide (k.2 = y /\ k.1 ∈ xs) then None else m !! k.
Proof.
  induction xs as [|x xs IH]; intros m [kx ky]; simpl.
  - rewrite decide_False; [reflexivity|]. intros [_ H]. inversion H.
  - rewrite IH. simpl.
    destruct (decide (ky = y /\ kx ∈ xs)) as [H|H];
      destruct (decide (ky = y /\ kx ∈ x :: xs)) as [H'|H'].
    + reflexivity.
    + exfalso. apply H'. destruct H as [H1 H2]. split; [exact H1|right; exact H2].
    + destruct H' as [-> H']. apply elem_of_cons in H' as [->|H'].
      * apply lookup_delete_eq.
      * exfalso. apply H. auto.
    + rewrite lookup_delete_ne; [reflexivity|]. intros Heq. injection Heq as -> ->.
      apply H'. split; [reflexivity|left].
Qed.

Lemma delete_rows_lookup (rows : list Z) :
  forall (m : locked_map) (k : coord),
  delete_rows rows m !! k =
    if decide (k.2 ∈ rows /\ 0 <= k.1 < GRID_WIDTH) then None else m !! k.
Proof.
  unfold delete_rows. induction rows as [|r rs IH]; intros m [kx ky]; cbn [fold_left].
  - rewrite decide_False; [reflexivity|]. intros [H _]. inversion H.
  - rewrite IH, delete_cols_lookup. cbn [fst snd].
    assert (Hr : kx ∈ range GRID_WIDTH <-> 0 <= kx < GRID_WIDTH)
      by (rewrite list_elem_of_In; apply in_range).
    destruct (decide (ky ∈ rs /\ 0 <= kx < GRID_WIDTH)) as [H1|H1];
      destruct (decide (ky ∈ r :: rs /\ 0 <= kx < GRID_WIDTH)) as [H2|H2];
      try destruct (decide (ky = r /\ kx ∈ range GRID_WIDTH)) as [H3|H3];
      try reflexivity; exfalso; rewrite ?elem_of_cons, ?Hr in *; naive_solver.
Qed.

Lemma nodup_map_of_nat (l : list nat) : List.NoDup l -> List.NoDup (map Z.of_nat l).
Proof.
  induction 1 as [|a l Ha Hl IH]; simpl; constructor; [|exact IH].
  intros Hin. apply in_map_iff in Hin as [b [Hb Hin]]. apply Nat2Z.inj in Hb. subst. contradiction.
Qed.

Lemma completed_rows_nodup (g : grid_t) : NoDup (completed_rows g).
Proof.
  apply NoDup_ListNoDup. unfold completed_rows, range. apply List.NoDup_filter.
  apply nodup_map_of_nat, seq_NoDup.
Qed.

(** ** [clear_rows] against a pre-clear snapshot *)

Lemma clear_rows_unfold (g : grid_t) (locked : locked_map) (r : Z) (rs : list Z) :
  completed_rows g = r :: rs ->
  clear_rows g locked =
    match move_rows (r :: rs) (sort_desc ((map_to_list (delete_rows (r :: rs) locked)).*1))
                    (delete_rows (r :: rs) locked) with
    | None => None
    | Some m => Some (Z.of_nat (length (r :: rs)), m)
    end.
Proof. intros H. unfold clear_rows. rewrite H. reflexivity. Qed.

(** Every remaining cell lands at [(x, y + shift)], and nothing else is
    in the new store, whenever the locked cells have [x] in range (so that
    the completed rows are deleted whole). *)
Lemma clear_rows_general (g : grid_t) (locked : locked_map) :
  (forall k, is_Some (locked !! k) -> 0 <= k.1 < GRID_WIDTH) ->
  exists m', clear_rows g locked = Some (Z.of_nat (length (completed_rows g)), m') /\
    (forall x y, y ∉ completed_rows g ->
       m' !! (x, y + shift_of (completed_rows g) y) = locked !! (x, y)) /\
    (forall k c, m' !! k = Some c ->
       exists x y, (y ∉ completed_rows g) /\ k = (x, y + shift_of (completed_rows g) y) /\
                   locked !! (x, y) = Some c).
Proof.
  intros Hx. pose proof (completed_rows_nodup g) as Hnd.
  destruct (completed_rows g) as [|r rs] eqn:HR.
  - exists locked. unfold clear_rows. rewrite HR. split; [reflexivity|]. simpl. split.
    + intros x y _. rewrite Z.add_0_r. reflexivity.
    + intros [x y] c Hk. exists x, y. rewrite Z.add_0_r.
      split; [apply not_elem_of_nil|]. auto.
  - rewrite (clear_rows_unfold g locked r rs HR).
    set (R := r :: rs) in *.
    set (locked1 := delete_rows R locked).
    set (keys := sort_desc ((map_to_list locked1).*1)).
    assert (Hl1 : forall x y, y ∉ R -> locked1 !! (x, y) = locked !! (x, y)).
    { intros x y Hy. unfold locked1. rewrite delete_rows_lookup.
      rewrite decide_False; [reflexivity|]. intros [H _]. contradiction. }
    assert (Hdom : forall k, k ∈ [] ++ keys -> is_Some (locked1 !! k) /\ k.2 ∉ R).
    { intros k Hk. simpl in Hk. apply sort_keys_spec in Hk. split; [exact Hk|].
      intros HkR. destruct Hk as [c Hc]. unfold locked1 in Hc.
      rewrite delete_rows_lookup in Hc.
      destruct (decide _) as [_|Hn]; [discriminate|]. apply Hn. split; [exact HkR|].
      apply Hx. eauto. }
    destruct (move_rows_loop R locked1 Hnd keys [] locked1) as (m' & Hm' & Hr2 & Hr3).
    + simpl. apply sort_keys_nodup.
    + apply sort_desc_sorted.
    + intros p q Hp. inversion Hp.
    + exact Hdom.
    + reflexivity.
    + intros p Hp. inversion Hp.
    + intros k Hk. left. apply sort_keys_spec, Hk.
    + unfold move_rows. rewrite Hm'. exists m'. split; [reflexivity|]. split.
      * intros x y Hy. rewrite <- (Hl1 x y Hy).
        destruct (decide ((x, y) ∈ keys)) as [Hin|Hnin].
        -- apply (Hr2 (x, y)). exact Hin.
        -- assert (Hn : locked1 !! (x, y) = None).
           { destruct (locked1 !! (x, y)) eqn:E; [|reflexivity].
             exfalso. apply Hnin, sort_keys_spec. rewrite E. eauto. }
           rewrite Hn. destruct (m' !! (x, y + shift_of R y)) as [c0|] eqn:E; [|reflexivity].
           exfalso. destruct (Hr3 _ (mk_is_Some _ _ E)) as (p & Hp & Heq).
           destruct (Hdom p Hp) as [_ Hp2].
           apply Hnin. assert (Hxp : (x, y) = p).
           { apply (shifted_inj R Hnd); [exact Hy|exact Hp2|exact Heq]. }
           rewrite Hxp. exact Hp.
      * intros k c Hk. destruct (Hr3 k (mk_is_Some _ _ Hk)) as (p & Hp & ->).
        destruct (Hdom p Hp) as [_ Hp2]. destruct p as [x y]. simpl in Hp2.
        exists x, y. split; [exact Hp2|]. split; [reflexivity|].
        rewrite <- (Hl1 x y Hp2), <- (Hr2 (x, y) Hp). exact Hk.
Qed.

Lemma shift_of_count (rows : list Z) (y : Z) :
  shift_of rows y = Z.of_nat (length (List.filter (fun r => y <? r) rows)).
Proof.
  induction rows as [|r rs IH]; simpl; [reflexivity|].
  destruct (y <? r); simpl length; lia.
Qed.

Lemma completed_rows_spec (locked : locked_map) (y : Z) :
  y ∈ completed_rows (create_grid locked) <->
  0 <= y < GRID_HEIGHT /\
  forall x, 0 <= x < GRID_WIDTH -> exists c, locked !! (x, y) = Some c /\ c <> BLACK.
Proof.
  unfold completed_rows. rewrite list_elem_of_In, filter_In, in_range. split.
  - intros [Hy Hc]. split; [exact Hy|]. apply row_complete_create_grid; assumption.
  - intros [Hy Hc]. split; [exact Hy|]. apply row_complete_create_grid; assumption.
Qed.

Lemma board_row5_in_grid (x y : Z) :
  is_Some (board_row5 !! (x, y)) -> in_grid x y = true.
Proof.
  assert (H : map_Forall (fun k _ => in_grid k.1 k.2 = true) board_row5)
    by (apply (bool_decide_eq_true_1 (map_Forall _ _)); vm_compute; reflexivity).
  intros [c Hc]. exact (H (x, y) c Hc).
Qed.

(** A rotation that succeeds without moving the pivot is the in-place
    rotation. *)
Lemma rotate_success_in_place (p p' : Piece) (g : grid_t) :
  try_rotate_with_kicks p g = (true, p') -> px p' = px p ->
  p' = set_rotation p ((rotation p + 1) mod 4).
Proof.
  destruct p as [x y k r].
  unfold try_rotate_with_kicks, kick_loop, set_x, set_rotation.
  cbn [px py shape_index rotation].
  repeat match goal with |- context [valid_space ?q g] => destruct (valid_space q g) end;
    intros H Hx; try discriminate H; injection H as <-; cbn [px] in Hx; try reflexivity; lia.
Qed.

(** The rotation field stays in [0, 4) through a rotation attempt. *)
Lemma rotate_rotation_range (p : Piece) (g : grid_t) :
  0 <= rotation p < 4 -> 0 <= rotation (snd (try_rotate_with_kicks p g)) < 4.
Proof.
  destruct p as [x y k r]. intros Hr.
  unfold try_rotate_with_kicks, kick_loop, set_x, set_rotation.
  cbn [px py shape_index rotation] in *.
  repeat match goal with |- context [valid_space ?q g] => destruct (valid_space q g) end;
    cbn [snd rotation]; try lia; apply Z.mod_pos_bound; lia.
Qed.

(** ** Lemmas for [in_bounds], the grid and the frames of [main] *)

Lemma in_bounds_cells (p : Piece) :
  in_bounds p = true <->
  forall x y, (x, y) ∈ get_cells p -> 0 <= x < GRID_WIDTH /\ y < GRID_HEIGHT.
Proof.
  unfold in_bounds. rewrite forallb_forall. split.
  - intros H x y Hin. apply list_elem_of_In in Hin. specialize (H _ Hin). cbn in H.
    apply negb_true_iff, orb_false_iff in H as [H H3]. apply orb_false_iff in H as [H1 H2].
    apply Z.ltb_ge in H1. apply Z.leb_gt in H2. apply Z.leb_gt in H3. lia.
  - intros H [x y] Hin. apply list_elem_of_In in Hin. destruct (H x y Hin) as [H1 H2].
    apply negb_true_iff, orb_false_iff. split; [apply orb_false_iff; split|];
      [apply Z.ltb_ge | apply Z.leb_gt | apply Z.leb_gt]; lia.
Qed.

Lemma valid_in_bounds (p : Piece) (g : grid_t) :
  valid_space p g = true -> in_bounds p = true.
Proof.
  intros Hv. apply in_bounds_cells. intros x y Hin.
  destruct (proj1 (valid_space_cells p g) Hv x y Hin) as (H1 & H2 & _). split; assumption.
Qed.

Lemma in_bounds_py (p : Piece) : in_bounds p = true -> py p < GRID_HEIGHT.
Proof. intros H. apply (proj1 (in_bounds_cells p) H (px p) (py p) (pivot_in_cells p)). Qed.

Lemma valid_space_empty_aux (p : Piece) :
  valid_space p (create_grid ∅) = in_bounds p.
Proof.
  apply Bool.eq_true_iff_eq. rewrite valid_space_cells, in_bounds_cells. split.
  - intros H x y Hin. destruct (H x y Hin) as (H1 & H2 & _). split; assumption.
  - intros H x y Hin. destruct (H x y Hin) as [H1 H2]. split; [exact H1|]. split; [exact H2|].
    intros Hy. rewrite create_grid_get by (apply in_grid_spec; lia).
    rewrite lookup_empty. reflexivity.
Qed.

Lemma create_grid_wf (locked : locked_map) : grid_wf (create_grid locked).
Proof. destruct (create_grid_inv locked) as (H1 & H2 & _). split; assumption. Qed.

Lemma grid_ext (g1 g2 : grid_t) :
  grid_wf g1 -> grid_wf g2 ->
  (forall x y, in_grid x y = true -> grid_get g1 x y = grid_get g2 x y) -> g1 = g2.
Proof.
  intros [Hl1 Hr1] [Hl2 Hr2] H. apply list_eq. intros i.
  destruct (decide (i < Z.to_nat GRID_HEIGHT)%nat) as [Hi|Hi].
  - destruct (lookup_lt_is_Some_2 g1 i) as [r1 E1]; [lia|].
    destruct (lookup_lt_is_Some_2 g2 i) as [r2 E2]; [lia|].
    rewrite E1, E2. f_equal. apply list_eq. intros j.
    pose proof (Hr1 _ _ E1) as L1. pose proof (Hr2 _ _ E2) as L2.
    destruct (decide (j < Z.to_nat GRID_WIDTH)%nat) as [Hj|Hj].
    + specialize (H (Z.of_nat j) (Z.of_nat i)).
      unfold grid_get in H. rewrite !Nat2Z.id, E1, E2 in H. apply H, in_grid_spec.
      unfold GRID_HEIGHT, GRID_WIDTH in *; lia.
    + rewrite !lookup_ge_None_2 by lia. reflexivity.
  - rewrite !lookup_ge_None_2 by lia. reflexivity.
Qed.

Lemma grid_set_spec (g : grid_t) (x y : Z) (c : color) :
  grid_wf g -> in_grid x y = true ->
  grid_wf (grid_set g x y c) /\
  forall x' y', in_grid x' y' = true ->
    grid_get (grid_set g x y c) x' y' =
      if decide ((x', y') = (x, y)) then Some c else grid_get g x' y'.
Proof.
  intros [Hl Hr] Hin. pose proof Hin as Hin'. apply in_grid_spec in Hin' as [Hy Hx].
  destruct (lookup_lt_is_Some_2 g (Z.to_nat y)) as [row0 Hrow0];
    [rewrite Hl; unfold GRID_HEIGHT in *; lia|].
  pose proof (Hr _ _ Hrow0) as Hlen0.
  unfold grid_set. rewrite Hrow0. simpl. split; [split|].
  - rewrite length_insert. exact Hl.
  - intros i row H. destruct (decide (Z.to_nat y = i)) as [<-|Hne].
    + rewrite list_lookup_insert_eq in H by (rewrite Hl; unfold GRID_HEIGHT in *; lia).
      injection H as <-. rewrite length_insert. exact Hlen0.
    + rewrite list_lookup_insert_ne in H by exact Hne. eapply Hr. exact H.
  - intros x' y' Hin2. apply in_grid_spec in Hin2 as [Hy' Hx']. unfold grid_get.
    destruct (decide ((x', y') = (x, y))) as [Heq|Hne].
    + injection Heq as -> ->.
      rewrite list_lookup_insert_eq by (rewrite Hl; unfold GRID_HEIGHT in *; lia). simpl.
      rewrite list_lookup_insert_eq by (rewrite Hlen0; unfold GRID_WIDTH in *; lia).
      reflexivity.
    + destruct (decide (Z.to_nat y = Z.to_nat y')) as [Hyy|Hyy].
      * assert (y' = y) as -> by lia.
        rewrite list_lookup_insert_eq by (rewrite Hl; unfold GRID_HEIGHT in *; lia).
        rewrite Hrow0. simpl.
        rewrite list_lookup_insert_ne; [reflexivity|].
        intros Hxx. apply Hne. f_equal. lia.
      * rewrite list_lookup_insert_ne by exact Hyy. reflexivity.
Qed.

Lemma overlay_fold (c : color) (cells : list coord) :
  forall g, grid_wf g ->
  grid_wf (fold_left (overlay_cell c) cells g) /\
  forall x y, in_grid x y = true ->
    grid_get (fold_left (overlay_cell c) cells g) x y =
      if bool_decide ((x, y) ∈ cells) then Some c else grid_get g x y.
Proof.
  induction cells as [|[a b] cs IH]; intros g Hg; cbn [fold_left].
  - split; [exact Hg|]. intros x y _. reflexivity.
  - assert (Hstep : grid_wf (overlay_cell c g (a, b)) /\
      forall x y, in_grid x y = true ->
        grid_get (overlay_cell c g (a, b)) x y =
          if decide ((x, y) = (a, b)) then Some c else grid_get g x y).
    { unfold overlay_cell.
      destruct (0 <=? b) eqn:E0;
        [destruct (_ && _ && _ && _) eqn:E1|].
      - apply grid_set_spec; [exact Hg|]. apply in_grid_spec.
        rewrite !andb_true_iff, !Z.leb_le, !Z.ltb_lt in E1. lia.
      - split; [exact Hg|]. intros x y Hin. rewrite decide_False; [reflexivity|].
        intros [= -> ->]. apply in_grid_spec in Hin. apply Bool.not_true_iff_false in E1.
        apply E1. rewrite !andb_true_iff, !Z.leb_le, !Z.ltb_lt. repeat split; lia.
      - split; [exact Hg|]. intros x y Hin. rewrite decide_False; [reflexivity|].
        intros [= -> ->]. apply in_grid_spec in Hin. apply Z.leb_gt in E0. lia. }
    destruct Hstep as [Hwf Hget]. destruct (IH _ Hwf) as [Hwf' Hget'].
    split; [exact Hwf'|].
    intros x y Hin. rewrite Hget' by exact Hin. rewrite Hget by exact Hin.
    case_bool_decide as H1; case_bool_decide as H2; destruct (decide ((x, y) = (a, b))) as [Heq|Hne];
      try reflexivity; exfalso; rewrite elem_of_cons in H2; naive_solver.
Qed.

Lemma overlay_is_lock_aux (locked : locked_map) (p : Piece) :
  overlay_current_piece (create_grid locked) p = create_grid (lock_piece p locked).
Proof.
  unfold overlay_current_piece.
  destruct (overlay_fold (piece_color p) (get_cells p) (create_grid locked)
              (create_grid_wf locked)) as [Hwf Hget].
  apply grid_ext; [exact Hwf | apply create_grid_wf |].
  intros x y Hin. rewrite Hget by exact Hin. rewrite !create_grid_get by exact Hin.
  unfold lock_piece. rewrite lock_piece_lookup.
  destruct (bool_decide _); reflexivity.
Qed.

Lemma create_grid_ext_aux (l1 l2 : locked_map) :
  (forall x y, in_grid x y = true -> l1 !! (x, y) = l2 !! (x, y)) ->
  create_grid l1 = create_grid l2.
Proof.
  intros H. apply grid_ext; [apply create_grid_wf | apply create_grid_wf |].
  intros x y Hin. rewrite !create_grid_get by exact Hin. rewrite H by exact Hin. reflexivity.
Qed.

Lemma lock_store_bounds_aux (p : Piece) (locked : locked_map) :
  in_bounds p = true -> store_in_bounds locked -> store_in_bounds (lock_piece p locked).
Proof.
  intros Hb Hs x y Hk.
  destruct (decide ((x, y) ∈ get_cells p)) as [Hin|Hin].
  - apply (proj1 (in_bounds_cells p) Hb x y Hin).
  - unfold lock_piece in Hk. rewrite lock_piece_lookup, bool_decide_eq_false_2 in Hk by exact Hin.
    apply Hs, Hk.
Qed.

Lemma nodup_count_bound (l : list Z) (a b : Z) :
  List.NoDup l -> (forall z, In z l -> a <= z < b) -> Z.of_nat (length l) <= Z.max 0 (b - a).
Proof.
  intros Hnd Hr.
  assert (Hincl : incl l (map (fun i => a + Z.of_nat i) (seq 0 (Z.to_nat (b - a))))).
  { intros z Hz. apply in_map_iff. exists (Z.to_nat (z - a)). specialize (Hr z Hz).
    split; [lia|]. apply in_seq. lia. }
  assert (H : Nat.le (length l) (length (map (fun i => a + Z.of_nat i) (seq 0 (Z.to_nat (b - a))))))
    by (apply List.NoDup_incl_length; assumption).
  rewrite length_map, length_seq in H. lia.
Qed.

Lemma completed_rows_range (g : grid_t) (r : Z) :
  r ∈ completed_rows g -> 0 <= r < GRID_HEIGHT.
Proof.
  unfold completed_rows. rewrite list_elem_of_In, filter_In, in_range. tauto.
Qed.

Lemma shift_of_bound (rows : list Z) (y : Z) :
  NoDup rows -> (forall r, r ∈ rows -> 0 <= r < GRID_HEIGHT) -> y < GRID_HEIGHT ->
  y + shift_of rows y < GRID_HEIGHT.
Proof.
  intros Hnd Hr Hy. rewrite shift_of_count.
  apply NoDup_ListNoDup in Hnd.
  assert (Hnd' : List.NoDup (List.filter (fun r => y <? r) rows))
    by (apply List.NoDup_filter; exact Hnd).
  assert (Hb : forall z, In z (List.filter (fun r => y <? r) rows) ->
                 Z.max (y + 1) 0 <= z < GRID_HEIGHT).
  { intros z Hz. apply filter_In in Hz as [Hz Hlt]. apply Z.ltb_lt in Hlt.
    apply list_elem_of_In in Hz. specialize (Hr z Hz). lia. }
  pose proof (nodup_count_bound _ _ _ Hnd' Hb) as H. unfold GRID_HEIGHT in *. lia.
Qed.

Lemma clear_store_bounds_aux (g : grid_t) (locked m : locked_map) (n : Z) :
  store_in_bounds locked -> clear_rows g locked = Some (n, m) ->
  store_in_bounds m /\ n = Z.of_nat (length (completed_rows g)) /\
  (forall k c, m !! k = Some c -> exists k', locked !! k' = Some c).
Proof.
  intros Hs Hc.
  destruct (clear_rows_general g locked) as (m' & Hc' & _ & Hb).
  { intros [x y] Hk. apply Hs in Hk. simpl. lia. }
  rewrite Hc' in Hc. injection Hc as <- <-. split; [|split; [reflexivity|]].
  - intros x y [c Hk]. destruct (Hb _ _ Hk) as (x0 & y0 & Hy0 & Heq & Hl).
    injection Heq as -> ->. destruct (Hs x0 y0 (mk_is_Some _ _ Hl)) as [Hx Hy].
    split; [exact Hx|]. apply shift_of_bound;
      [apply completed_rows_nodup | apply completed_rows_range | exact Hy].
  - intros k c Hk. destruct (Hb _ _ Hk) as (x0 & y0 & _ & _ & Hl). eauto.
Qed.

Lemma piece_color_in (p : Piece) : In (piece_color p) SHAPE_COLORS.
Proof. destruct p as [x y [] r]; simpl; auto 8. Qed.

Lemma get_new_piece_in_bounds (k : kind) : in_bounds (get_new_piece k) = true.
Proof. destruct k; vm_compute; reflexivity. Qed.

Lemma score_after_clear_ge (n s : Z) : s <= score_after_clear n s.
Proof.
  unfold score_after_clear.
  destruct (n =? 1), (n =? 2), (n =? 3), (n >=? 4); lia.
Qed.

Lemma hard_drop_valid_aux (p : Piece) (g : grid_t) :
  valid_space p g = true ->
  exists p', hard_drop p g = Some p' /\ valid_space p' g = true.
Proof.
  intros Hv. unfold hard_drop.
  destruct (drop_loop_spec g (Z.to_nat (GRID_HEIGHT + 1 - py p)) p Hv)
    as (k & Hk & Hd & Hv1 & Hv2).
  { pose proof (valid_py_lt p g Hv). rewrite Z2Nat.id; lia. }
  rewrite Hd. eexists. split; [reflexivity|]. rewrite set_y_set_y.
  replace (py (set_y p (py p + k + 1)) - 1) with (py p + k) by (destruct p; cbn; lia).
  exact Hv1.
Qed.

Lemma hard_drop_invalid_aux (p : Piece) (g : grid_t) :
  valid_space p g = false -> py p <= GRID_HEIGHT ->
  hard_drop p g = Some (set_y p (py p - 1)).
Proof.
  intros Hv Hy. unfold hard_drop.
  destruct (Z.to_nat (GRID_HEIGHT + 1 - py p)) as [|n] eqn:E; [lia|].
  cbn [drop_loop]. rewrite Hv. reflexivity.
Qed.

Lemma get_cells_set_y (p : Piece) (y : Z) :
  get_cells (set_y p y) = map (fun '(a, b) => (a, b + (y - py p))) (get_cells p).
Proof.
  destruct p as [x0 y0 k r]. unfold get_cells, set_y, piece_shape.
  cbn [px py shape_index rotation].
  rewrite map_map. apply map_ext. intros [dx dy]. cbn. f_equal. lia.
Qed.

Lemma in_bounds_up (p : Piece) (y : Z) :
  in_bounds p = true -> y <= py p -> in_bounds (set_y p y) = true.
Proof.
  rewrite !in_bounds_cells. intros H Hy x y' Hin. rewrite get_cells_set_y in Hin.
  apply list_elem_of_In, in_map_iff in Hin as ([a b] & Heq & Hin).
  simpl in Heq. injection Heq as <- <-. apply list_elem_of_In in Hin.
  destruct (H a b Hin). lia.
Qed.

Lemma hard_drop_ok (q : Piece) (g : grid_t) :
  in_bounds q = true ->
  exists q', hard_drop q g = Some q' /\ in_bounds q' = true /\
    (valid_space q g = true -> valid_space q' g = true).
Proof.
  intros Hb. destruct (valid_space q g) eqn:Ev.
  - destruct (hard_drop_valid_aux q g Ev) as (q' & Hq & Hv).
    exists q'. split; [exact Hq|]. split; [eapply valid_in_bounds; exact Hv|]. intros _. exact Hv.
  - pose proof (in_bounds_py q Hb) as Hy.
    exists (set_y q (py q - 1)). split; [apply hard_drop_invalid_aux; [exact Ev|lia]|].
    split; [apply in_bounds_up; [exact Hb|lia]|]. discriminate.
Qed.

Lemma move_left_cases (p : Piece) (locked : locked_map) :
  move_left p locked =
    if valid_space (set_x p (px p - 1)) (create_grid locked) then set_x p (px p - 1) else p.
Proof.
  unfold move_left. destruct (valid_space _ _); [reflexivity|].
  destruct p; unfold set_x; cbn; f_equal; lia.
Qed.

Lemma move_right_cases (p : Piece) (locked : locked_map) :
  move_right p locked =
    if valid_space (set_x p (px p + 1)) (create_grid locked) then set_x p (px p + 1) else p.
Proof.
  unfold move_right. destruct (valid_space _ _); [reflexivity|].
  destruct p; unfold set_x; cbn; f_equal; lia.
Qed.

Lemma move_down_cases (p : Piece) (locked : locked_map) :
  move_down p locked =
    if valid_space (set_y p (py p + 1)) (create_grid locked) then set_y p (py p + 1) else p.
Proof.
  unfold move_down. destruct (valid_space _ _); [reflexivity|].
  destruct p; unfold set_y; cbn; f_equal; lia.
Qed.

Lemma gravity_cases (p : Piece) (ch : bool) (locked : locked_map) :
  gravity p ch locked =
    if valid_space (set_y p (py p + 1)) (create_grid locked)
    then (set_y p (py p + 1), ch) else (p, true).
Proof.
  unfold gravity. destruct (valid_space _ _); [reflexivity|].
  destruct p; unfold set_y; cbn. do 2 f_equal. lia.
Qed.

Lemma rotate_result (p q : Piece) (b : bool) (g : grid_t) :
  try_rotate_with_kicks p g = (b, q) ->
  (b = true -> valid_space q g = true /\ rotation q = (rotation p + 1) mod 4 /\
     py q = py p /\ shape_index q = shape_index p /\ px p - 2 <= px q <= px p + 2) /\
  (b = false -> q = p).
Proof.
  destruct p as [x y k r].
  unfold try_rotate_with_kicks, kick_loop, set_x, set_rotation.
  cbn [px py shape_index rotation].
  intros H.
  repeat match type of H with context [valid_space ?q' g] =>
    destruct (valid_space q' g) eqn:? end;
    injection H as <- <-; split; intros Hb; try discriminate Hb;
    repeat split; try assumption; cbn [px py rotation shape_index]; try reflexivity; try lia.
Qed.

Lemma stage_ok (locked : locked_map) (V : Prop) (a b : Piece) :
  in_bounds a = true /\ (V -> valid_space a (create_grid locked) = true) ->
  b = a \/ valid_space b (create_grid locked) = true ->
  in_bounds b = true /\ (V -> valid_space b (create_grid locked) = true).
Proof.
  intros [H1 H2] [->|Hv]; [split; assumption|].
  split; [eapply valid_in_bounds; exact Hv | intros _; exact Hv].
Qed.

Lemma frame_moves_ok (locked : locked_map) (p : Piece) (ch : bool) (inp : FrameInput) :
  in_bounds p = true ->
  exists p' ch', frame_moves locked p ch inp = Some (p', ch') /\ in_bounds p' = true /\
    (valid_space p (create_grid locked) = true -> valid_space p' (create_grid locked) = true).
Proof.
  intros Hb. set (V := valid_space p (create_grid locked) = true).
  unfold frame_moves.
  destruct (if fall_due inp then gravity p ch locked else (p, ch)) as [p1 ch1] eqn:E1.
  assert (H1 : in_bounds p1 = true /\ (V -> valid_space p1 (create_grid locked) = true)).
  { apply (stage_ok locked V p); [split; [exact Hb | intros Hv; exact Hv]|].
    destruct (fall_due inp).
    - rewrite gravity_cases in E1.
      destruct (valid_space (set_y p (py p + 1)) (create_grid locked)) eqn:Ev;
        injection E1 as <- <-; auto.
    - injection E1 as <- <-. auto. }
  cbv beta iota zeta.
  set (p2 := if key_left inp && move_ready inp then move_left p1 locked else p1).
  assert (H2 : in_bounds p2 = true /\ (V -> valid_space p2 (create_grid locked) = true)).
  { apply (stage_ok locked V p1 p2 H1). unfold p2.
    destruct (key_left inp && move_ready inp); [|auto].
    rewrite move_left_cases. destruct (valid_space (set_x p1 (px p1 - 1)) (create_grid locked)) eqn:Ev; auto. }
  set (p3 := if key_right inp && move_ready inp then move_right p2 locked else p2).
  assert (H3 : in_bounds p3 = true /\ (V -> valid_space p3 (create_grid locked) = true)).
  { apply (stage_ok locked V p2 p3 H2). unfold p3.
    destruct (key_right inp && move_ready inp); [|auto].
    rewrite move_right_cases. destruct (valid_space (set_x p2 (px p2 + 1)) (create_grid locked)) eqn:Ev; auto. }
  set (p4 := if key_down inp && move_ready inp then move_down p3 locked else p3).
  assert (H4 : in_bounds p4 = true /\ (V -> valid_space p4 (create_grid locked) = true)).
  { apply (stage_ok locked V p3 p4 H3). unfold p4.
    destruct (key_down inp && move_ready inp); [|auto].
    rewrite move_down_cases. destruct (valid_space (set_y p3 (py p3 + 1)) (create_grid locked)) eqn:Ev; auto. }
  set (p5 := if key_up inp && move_ready inp
             then snd (try_rotate_with_kicks p4 (create_grid locked)) else p4).
  assert (H5 : in_bounds p5 = true /\ (V -> valid_space p5 (create_grid locked) = true)).
  { apply (stage_ok locked V p4 p5 H4). unfold p5.
    destruct (key_up inp && move_ready inp); [|auto].
    destruct (try_rotate_with_kicks p4 (create_grid locked)) as [ok q] eqn:Er.
    destruct (rotate_result _ _ _ _ Er) as [Ht Hf]. cbn [snd].
    destruct ok; [right; apply Ht; reflexivity | left; apply Hf; reflexivity]. }
  destruct (key_space inp && move_ready inp).
  - destruct (hard_drop_ok p5 (create_grid locked) (proj1 H5)) as (q & Hq & Hqb & Hqv).
    rewrite Hq. exists q, true. split; [reflexivity|]. split; [exact Hqb|].
    intros Hv. apply Hqv, (proj2 H5), Hv.
  - exists p5, ch1. split; [reflexivity|]. exact H5.
Qed.

Lemma frame_game_inv (st st' : Game) (inp : FrameInput) :
  game_inv st -> frame st inp = Some st' -> game_inv st'.
Proof.
  intros (Hs & Hc & Hb & Hn & Hch & Hsc) Hf. unfold frame in Hf.
  destruct (frame_moves_ok (locked_positions st) (current_piece st) (change_piece st) inp Hb)
    as (p & ch & Hm & Hpb & _).
  rewrite Hm in Hf. destruct ch; cbv beta iota zeta in Hf.
  - revert Hf.
    destruct (clear_rows (overlay_current_piece (create_grid (locked_positions st)) p)
                (lock_piece p (locked_positions st))) as [[n m]|] eqn:Hcl;
      intros Hf; [|discriminate].
    injection Hf as <-.
    pose proof (lock_store_bounds_aux p _ Hpb Hs) as Hs1.
    destruct (clear_store_bounds_aux _ _ _ _ Hs1 Hcl) as (Hs2 & _ & Hval).
    unfold game_inv; cbn [locked_positions current_piece next_piece change_piece score].
    split; [exact Hs2|]. split.
    { intros k c Hk. destruct (Hval k c Hk) as [k' Hk']. unfold lock_piece in Hk'.
      rewrite lock_piece_lookup in Hk'. destruct (bool_decide _).
      - injection Hk' as <-. apply piece_color_in.
      - eapply Hc. exact Hk'. }
    split; [exact Hn|]. split; [apply get_new_piece_in_bounds|]. split; [reflexivity|].
    pose proof (score_after_clear_ge n (score st)). lia.
  - injection Hf as <-. unfold game_inv;
      cbn [locked_positions current_piece next_piece change_piece score].
    split; [exact Hs|]. split; [exact Hc|]. split; [exact Hpb|]. split; [exact Hn|].
    split; [reflexivity|exact Hsc].
Qed.

Lemma frame_progress (st : Game) (inp : FrameInput) :
  game_inv st -> exists st', frame st inp = Some st'.
Proof.
  intros (Hs & Hc & Hb & Hn & Hch & Hsc). unfold frame.
  destruct (frame_moves_ok (locked_positions st) (current_piece st) (change_piece st) inp Hb)
    as (p & ch & Hm & Hpb & _).
  rewrite Hm. destruct ch; cbv beta iota zeta; [|eexists; reflexivity].
  pose proof (lock_store_bounds_aux p _ Hpb Hs) as Hs1.
  destruct (clear_rows_general (overlay_current_piece (create_grid (locked_positions st)) p)
              (lock_piece p (locked_positions st))) as (m & Hcl & _).
  { intros [x y] Hk. apply Hs1 in Hk. simpl. lia. }
  rewrite Hcl. eexists. reflexivity.
Qed.

Lemma reachable_inv (st : Game) : reachable st -> game_inv st.
Proof.
  induction 1 as [k1 k2|st st' inp Hr IH Hrun Hf].
  - unfold game_inv, initial_game; cbn [locked_positions current_piece next_piece change_piece score].
    split; [intros x y [c Hc]; rewrite lookup_empty in Hc; discriminate|].
    split; [intros k c Hc; rewrite lookup_empty in Hc; discriminate|].
    split; [apply get_new_piece_in_bounds|]. split; [apply get_new_piece_in_bounds|].
    split; [reflexivity|lia].
  - eapply frame_game_inv; eassumption.
Qed.

(** * The claims *)

(** C1: the placement check fails for a cell with [x < 0], [x >= 10] or
    [y >= 20] (there is no bound on negative [y]), fails for a cell with
    [y >= 0] on a non-empty grid cell, and succeeds exactly when all four
    cells pass both tests. *)
Theorem valid_space_spec (p : Piece) (g : grid_t) :
  length (get_cells p) = 4%nat /\
  (valid_space p g = true <->
   forall x y, (x, y) ∈ get_cells p ->
     0 <= x < GRID_WIDTH /\ y < GRID_HEIGHT /\ (0 <= y -> grid_get g x y = Some BLACK)) /\
  (forall x y, (x, y) ∈ get_cells p ->
     x < 0 \/ GRID_WIDTH <= x \/ GRID_HEIGHT <= y -> valid_space p g = false) /\
  (forall x y, (x, y) ∈ get_cells p -> 0 <= y ->
     grid_get g x y <> Some BLACK -> valid_space p g = false).
Proof.
  split; [apply get_cells_length|]. split; [apply valid_space_cells|]. split.
  - intros x y Hin Hout. destruct (valid_space p g) eqn:Hv; [|reflexivity].
    apply valid_space_cells with (x := x) (y := y) in Hv as (H1 & H2 & _); [lia|exact Hin].
  - intros x y Hin Hy Hne. destruct (valid_space p g) eqn:Hv; [|reflexivity].
    apply valid_space_cells with (x := x) (y := y) in Hv as (_ & _ & H3); [|exact Hin].
    exfalso. apply Hne, H3, Hy.
Qed.

(** C2: the rotation attempt equals the in-place rotation followed by the
    kicks +1, -1, +2, -2 (from the original pivot, against the new
    rotation), first valid one wins; when all fail the piece is returned
    exactly as it was. *)
Theorem try_rotate_with_kicks_spec (p : Piece) (g : grid_t) :
  try_rotate_with_kicks p g = rotate_spec p g.
Proof.
  destruct p as [x y k r].
  unfold try_rotate_with_kicks, rotate_spec, kick_loop, set_x, set_rotation.
  cbn [px py shape_index rotation].
  replace (x + -1) with (x - 1) by lia. replace (x + -2) with (x - 2) by lia.
  repeat match goal with |- context [valid_space ?q g] => destruct (valid_space q g) end;
    reflexivity.
Qed.

(** C3 (as stated, refuted): on a board whose only completed row is row 5,
    row 5 is not empty after the clear when row 4 held a cell, since that
    cell falls into row 5. *)
Lemma clear_rows_row5_refilled :
  completed_rows (create_grid board_row5) = [5] /\
  board_row5 !! (0, 4) = Some COLOR_T /\
  clear_rows (create_grid board_row5) board_row5 = Some (1, {[(0, 5) := COLOR_T]}).
Proof. split; [|split]; vm_compute; reflexivity. Qed.

(** C3 (amended): for a board whose locked cells lie inside the grid, the
    completed rows are the rows whose ten cells are all filled; the clear
    returns their number, the new store holds every remaining cell
    [(x, y)] at [(x, y + shift)] and nothing else (so no cell is lost or
    overwritten and the cells of completed rows are gone); when row 5 is
    the only completed row, cells with [y < 5] move to [y + 1] (row 5 then
    holds the former row 4) and cells with [y > 5] stay. *)
Theorem clear_rows_correct (locked : locked_map) :
  (forall x y, is_Some (locked !! (x, y)) -> in_grid x y = true) ->
  (forall y, y ∈ completed_rows (create_grid locked) <->
     0 <= y < GRID_HEIGHT /\
     forall x, 0 <= x < GRID_WIDTH -> exists c, locked !! (x, y) = Some c /\ c <> BLACK) /\
  exists m',
    clear_rows (create_grid locked) locked =
      Some (Z.of_nat (length (completed_rows (create_grid locked))), m') /\
    (forall x y, y ∉ completed_rows (create_grid locked) ->
       m' !! (x, y + shift_of (completed_rows (create_grid locked)) y) = locked !! (x, y)) /\
    (forall k c, m' !! k = Some c ->
       exists x y, (y ∉ completed_rows (create_grid locked)) /\
         k = (x, y + shift_of (completed_rows (create_grid locked)) y) /\
         locked !! (x, y) = Some c) /\
    (completed_rows (create_grid locked) = [5] ->
       (forall x y, y < 5 -> m' !! (x, y + 1) = locked !! (x, y)) /\
       (forall x, m' !! (x, 5) = locked !! (x, 4)) /\
       (forall x y, 5 < y -> m' !! (x, y) = locked !! (x, y))).
Proof.
  intros Hin. split; [apply completed_rows_spec|].
  destruct (clear_rows_general (create_grid locked) locked) as (m' & Hc & Ha & Hb).
  { intros [x y] Hk. apply Hin, in_grid_spec in Hk. simpl. lia. }
  exists m'. split; [exact Hc|]. split; [exact Ha|]. split; [exact Hb|].
  intros H5. rewrite H5 in Ha.
  assert (Hup : forall x y, y < 5 -> m' !! (x, y + 1) = locked !! (x, y)).
  { intros x y Hlt. assert (Hs : shift_of [5] y = 1)
      by (simpl; destruct (Z.ltb_spec y 5); lia).
    rewrite <- Hs. apply Ha. rewrite list_elem_of_singleton. lia. }
  split; [exact Hup|]. split.
  - intros x. exact (Hup x 4 ltac:(lia)).
  - intros x y Hgt. assert (Hs : shift_of [5] y = 0)
      by (simpl; destruct (Z.ltb_spec y 5); lia).
    specialize (Ha x y). rewrite Hs, Z.add_0_r in Ha. apply Ha.
    rewrite list_elem_of_singleton. lia.
Qed.

(** Witness of C3 on the board with row 5 full and a cell at (0, 4). *)
Lemma clear_rows_correct_witness :
  (forall x y, is_Some (board_row5 !! (x, y)) -> in_grid x y = true) /\ 
  exists m', clear_rows (create_grid board_row5) board_row5 = Some (1, m') /\ 
             m' !! (0, 5) = board_row5 !! (0, 4).
Proof.
  split; [exact board_row5_in_grid|].
  destruct (clear_rows_correct board_row5 board_row5_in_grid)
    as (_ & m' & Hc & _ & _ & H5).
  exists m'. split.
  - rewrite Hc. vm_compute. reflexivity.
  - apply H5. vm_compute. reflexivity.
Defined.

(** C4 (as stated, refuted): the cell (0, 4) above the completed row 5 has
    no completed row of smaller index, yet it is not left at (0, 4 + 0): it
    moves to (0, 5). *)
Lemma clear_rows_shift_counterexample :
  length (List.filter (fun r => r <? 4) (completed_rows (create_grid board_row5))) = 0%nat /\ 
  board_row5 !! (0, 4 + 0) = Some COLOR_T /\ 
  exists m', clear_rows (create_grid board_row5) board_row5 = Some (1, m') /\ 
             m' !! (0, 4 + 0) = None /\ m' !! (0, 5) = Some COLOR_T.
Proof.
  split; [vm_compute; reflexivity|]. split; [vm_compute; reflexivity|].
  exists {[(0, 5) := COLOR_T]}. split; [vm_compute; reflexivity|].
  split; vm_compute; reflexivity.
Qed.

(** C4 (amended): when the locked cells have [x] in [0, 10), each
    remaining locked cell at (x, y) is re-inserted at (x, y + shift) where
    shift is the number of completed rows with index greater than [y]
    (rows below the cell). *)
Theorem clear_rows_shift_below (g : grid_t) (locked : locked_map) :
  (forall k, is_Some (locked !! k) -> 0 <= k.1 < GRID_WIDTH) ->
  exists m', clear_rows g locked = Some (Z.of_nat (length (completed_rows g)), m') /\ 
    forall x y c, locked !! (x, y) = Some c -> y ∉ completed_rows g ->
      m' !! (x, y + Z.of_nat (length (List.filter (fun r => y <? r) (completed_rows g))))
        = Some c.
Proof.
  intros Hx. destruct (clear_rows_general g locked Hx) as (m' & Hc & Ha & _).
  exists m'. split; [exact Hc|]. intros x y c Hl Hy.
  rewrite <- shift_of_count, Ha by exact Hy. exact Hl.
Qed.

(** Witness of C4 on the board with row 5 full and a cell at (0, 4). *)
Lemma clear_rows_shift_below_witness :
  exists m', clear_rows (create_grid board_row5) board_row5 = Some (1, m') /\ 
             m' !! (0, 5) = Some COLOR_T.
Proof.
  assert (Hx : forall k, is_Some (board_row5 !! k) -> 0 <= k.1 < GRID_WIDTH).
  { intros [x y] Hk. apply board_row5_in_grid, in_grid_spec in Hk. simpl. lia. }
  assert (Hrows : completed_rows (create_grid board_row5) = [5]) by (vm_compute; reflexivity).
  destruct (clear_rows_shift_below (create_grid board_row5) board_row5 Hx) as (m' & Hc & H).
  rewrite Hrows in Hc, H.
  exists m'. split; [exact Hc|].
  assert (H4 : board_row5 !! (0, 4) = Some COLOR_T) by (vm_compute; reflexivity).
  assert (Hn4 : 4 ∉ [5]) by (rewrite list_elem_of_singleton; lia).
  pose proof (H 0 4 COLOR_T H4 Hn4) as H'.
  assert (Hs : 4 + Z.of_nat (length (List.filter (fun r => 4 <? r) [5])) = 5) by reflexivity.
  rewrite Hs in H'. exact H'.
Defined.

(** C5 (as stated, refuted): locking the T piece where it spawns writes
    its cell (5, -1) into the locked store. *)
Lemma lock_piece_writes_above_top :
  valid_space (get_new_piece KT) (create_grid ∅) = true /\
  lock_piece (get_new_piece KT) ∅ !! (5, -1) = Some COLOR_T.
Proof. split; vm_compute; reflexivity. Qed.

(** C5 (amended): locking writes every occupied cell of the piece with the
    piece's color, whatever its [y] (cells with [y < 0] included), and
    leaves every other key as it was; when the piece's placement is valid,
    every written cell has [x] in [0, 10) and [y < 20]. *)
Theorem lock_piece_spec (p : Piece) (locked : locked_map) :
  (forall k, k ∈ get_cells p -> lock_piece p locked !! k = Some (piece_color p)) /\
  (forall k, k ∉ get_cells p -> lock_piece p locked !! k = locked !! k) /\
  (forall g, valid_space p g = true ->
     forall x y, (x, y) ∈ get_cells p -> 0 <= x < GRID_WIDTH /\ y < GRID_HEIGHT).
Proof.
  unfold lock_piece. split; [|split].
  - intros k Hk. rewrite lock_piece_lookup, bool_decide_eq_true_2 by exact Hk. reflexivity.
  - intros k Hk. rewrite lock_piece_lookup, bool_decide_eq_false_2 by exact Hk. reflexivity.
  - intros g Hv x y Hin.
    destruct (proj1 (valid_space_cells p g) Hv x y Hin) as (H1 & H2 & _). split; assumption.
Qed.

(** C6: the loss check holds exactly when some locked cell has [y < 1]; a
    board with a cell at (3, 0) is lost, a board with all cells at
    [y >= 1] is not. *)
Theorem check_lost_spec (locked : locked_map) :
  (check_lost locked = true <-> exists x y, is_Some (locked !! (x, y)) /\ y < 1) /\
  (forall c, locked !! (3, 0) = Some c -> check_lost locked = true) /\
  ((forall x y, is_Some (locked !! (x, y)) -> 1 <= y) -> check_lost locked = false).
Proof.
  assert (Hiff : check_lost locked = true <-> exists x y, is_Some (locked !! (x, y)) /\ y < 1).
  { unfold check_lost. rewrite existsb_exists. split.
    - intros [k [Hin Hlt]]. apply list_elem_of_In, list_elem_of_fmap in Hin
        as ([[x y] c] & -> & Hin).
      apply elem_of_map_to_list in Hin. apply Z.ltb_lt in Hlt.
      exists x, y. split; [eauto|exact Hlt].
    - intros (x & y & [c Hc] & Hy). exists (x, y). split.
      + apply list_elem_of_In, list_elem_of_fmap. exists ((x, y), c).
        split; [reflexivity|]. apply elem_of_map_to_list, Hc.
      + apply Z.ltb_lt, Hy. }
  split; [exact Hiff|]. split.
  - intros c Hc. apply Hiff. exists 3, 0. split; [eauto|lia].
  - intros H. apply Bool.not_true_is_false. intros E.
    apply Hiff in E as (x & y & Hs & Hy). specialize (H x y Hs). lia.
Qed.

(** C7: the score after a lock adds 100, 300, 500 for 1, 2, 3 cleared
    rows, 800 for 4 or more, and nothing for 0. *)
Theorem score_after_clear_spec (score : Z) :
  score_after_clear 0 score = score /\
  score_after_clear 1 score = score + 100 /\
  score_after_clear 2 score = score + 300 /\
  score_after_clear 3 score = score + 500 /\
  (forall n, 4 <= n -> score_after_clear n score = score + 800).
Proof.
  repeat split; try reflexivity.
  intros n Hn. unfold score_after_clear.
  destruct (Z.eqb_spec n 1); [lia|]. destruct (Z.eqb_spec n 2); [lia|].
  destruct (Z.eqb_spec n 3); [lia|].
  replace (n >=? 4) with true by (symmetry; apply Z.geb_le; lia). reflexivity.
Qed.

(** C8: when every row of the grid has an empty cell, the row clear
    returns 0 and the locked store unchanged. *)
Theorem clear_rows_no_complete (g : grid_t) (locked : locked_map) :
  (forall y, 0 <= y < GRID_HEIGHT ->
     exists x, 0 <= x < GRID_WIDTH /\ grid_get g x y = Some BLACK) ->
  clear_rows g locked = Some (0, locked).
Proof.
  intros H. unfold clear_rows.
  replace (completed_rows g) with (@nil Z); [reflexivity|].
  symmetry. unfold completed_rows. apply filter_all_false.
  intros y Hy. apply in_range in Hy. destruct (H y Hy) as (x & _ & Hg).
  eapply row_not_complete. exact Hg.
Qed.

(** Witness of C8: a board with the single cell (0, 4). *)
Lemma clear_rows_no_complete_witness :
  clear_rows (create_grid {[(0, 4) := COLOR_T]}) {[(0, 4) := COLOR_T]} =
    Some (0, {[(0, 4) := COLOR_T]}).
Proof.
  apply clear_rows_no_complete. intros y Hy. exists 1. split; [unfold GRID_WIDTH; lia|].
  rewrite create_grid_get by (apply in_grid_spec; unfold GRID_WIDTH; lia).
  rewrite lookup_singleton_ne by congruence. reflexivity.
Defined.

(** C9: for a piece whose rotation is in [0, 4) (every piece the game
    creates or rotates), four successive successful rotations that each
    keep the pivot column (no kick used) bring the piece back to its
    original state. *)
Theorem rotate_four_in_place (p p1 p2 p3 p4 : Piece) (g1 g2 g3 g4 : grid_t) :
  0 <= rotation p < 4 ->
  try_rotate_with_kicks p g1 = (true, p1) -> px p1 = px p ->
  try_rotate_with_kicks p1 g2 = (true, p2) -> px p2 = px p1 ->
  try_rotate_with_kicks p2 g3 = (true, p3) -> px p3 = px p2 ->
  try_rotate_with_kicks p3 g4 = (true, p4) -> px p4 = px p3 ->
  p4 = p.
Proof.
  intros Hr H1 X1 H2 X2 H3 X3 H4 X4.
  apply rotate_success_in_place in H1; [|exact X1].
  apply rotate_success_in_place in H2; [|exact X2].
  apply rotate_success_in_place in H3; [|exact X3].
  apply rotate_success_in_place in H4; [|exact X4].
  subst. destruct p as [x y k r]. unfold set_rotation. cbn [px py shape_index rotation] in *.
  assert (r = 0 \/ r = 1 \/ r = 2 \/ r = 3) as [-> | [-> | [-> | ->]]] by lia;
    reflexivity.
Qed.

(** Witness of C9: the T piece at its spawn on the empty board. *)
Lemma rotate_four_in_place_witness :
  set_rotation (get_new_piece KT) 0 = get_new_piece KT.
Proof.
  apply (rotate_four_in_place (get_new_piece KT)
           (set_rotation (get_new_piece KT) 1) (set_rotation (get_new_piece KT) 2)
           (set_rotation (get_new_piece KT) 3) (set_rotation (get_new_piece KT) 0)
           (create_grid ∅) (create_grid ∅) (create_grid ∅) (create_grid ∅));
    try (vm_compute; reflexivity); cbn; lia.
Defined.

(** C10: from a valid placement the hard drop ends on a valid placement
    one row above the first invalid one, in the same column, rotation and
    shape, no higher than where it started. *)
Theorem hard_drop_spec (p : Piece) (g : grid_t) :
  valid_space p g = true ->
  exists p', hard_drop p g = Some p' /\
    valid_space p' g = true /\
    valid_space (set_y p' (py p' + 1)) g = false /\
    px p' = px p /\ rotation p' = rotation p /\ shape_index p' = shape_index p /\
    py p <= py p'.
Proof.
  intros Hv. unfold hard_drop.
  destruct (drop_loop_spec g (Z.to_nat (GRID_HEIGHT + 1 - py p)) p Hv)
    as (k & Hk & Hd & Hv1 & Hv2).
  { pose proof (valid_py_lt p g Hv). rewrite Z2Nat.id; lia. }
  rewrite Hd. exists (set_y p (py p + k)).
  rewrite set_y_set_y.
  replace (py (set_y p (py p + k + 1)) - 1) with (py p + k) by (destruct p; cbn; lia).
  replace (py (set_y p (py p + k)) + 1) with (py p + k + 1) by (destruct p; cbn; lia).
  split; [reflexivity|]. split; [exact Hv1|]. split; [exact Hv2|].
  destruct p; cbn in *. repeat split; lia.
Qed.

(** Witness of C10: the I piece at its spawn on the empty board. *)
Lemma hard_drop_spec_witness :
  valid_space (get_new_piece KI) (create_grid ∅) = true /\
  exists p', hard_drop (get_new_piece KI) (create_grid ∅) = Some p' /\
    valid_space p' (create_grid ∅) = true /\
    valid_space (set_y p' (py p' + 1)) (create_grid ∅) = false /\
    px p' = px (get_new_piece KI) /\ rotation p' = rotation (get_new_piece KI) /\
    shape_index p' = shape_index (get_new_piece KI) /\ py (get_new_piece KI) <= py p'.
Proof.
  assert (Hv : valid_space (get_new_piece KI) (create_grid ∅) = true)
    by (vm_compute; reflexivity).
  split; [exact Hv|]. exact (hard_drop_spec (get_new_piece KI) (create_grid ∅) Hv).
Defined.

(** * Further properties of the engine *)

(** X1: [in_bounds] holds exactly when every occupied cell has [x] in
    [0, 10) and [y < 20]; every valid placement, on any grid, is in
    bounds. *)
Theorem in_bounds_spec (p : Piece) :
  (in_bounds p = true <->
     forall x y, (x, y) ∈ get_cells p -> 0 <= x < GRID_WIDTH /\ y < GRID_HEIGHT) /\
  (forall g, valid_space p g = true -> in_bounds p = true).
Proof. split; [apply in_bounds_cells | intros g; apply valid_in_bounds]. Qed.

(** X2: on the grid of an empty store, a placement is valid exactly when
    it is in bounds. *)
Theorem valid_space_empty_grid (p : Piece) :
  valid_space p (create_grid ∅) = in_bounds p.
Proof. apply valid_space_empty_aux. Qed.

(** X3: [create_grid] builds 20 rows of 10 cells, cell [(x, y)] inside
    the grid holds the stored color or [BLACK] when no key is stored, and
    keys outside the grid are ignored: two stores that agree inside the
    grid give the same grid. *)
Theorem create_grid_spec (locked : locked_map) :
  length (create_grid locked) = 20%nat /\
  (forall row, In row (create_grid locked) -> length row = 10%nat) /\
  (forall x y, in_grid x y = true ->
     grid_get (create_grid locked) x y = Some (default BLACK (locked !! (x, y)))) /\
  (forall locked', (forall x y, in_grid x y = true -> locked' !! (x, y) = locked !! (x, y)) ->
     create_grid locked' = create_grid locked).
Proof.
  destruct (create_grid_inv locked) as (Hl & Hr & Hg).
  split; [exact Hl|]. split.
  - intros row Hin. apply list_elem_of_In, list_elem_of_lookup_1 in Hin as [i Hi].
    exact (Hr i row Hi).
  - split; [exact Hg|]. intros l' H. apply create_grid_ext_aux. exact H.
Qed.

(** X4: the grid [main] draws (the locked cells with the current piece
    painted on its in-grid cells) is the grid of the store after locking
    the piece; so the [clear_rows] of the lock step sees the piece just
    locked. *)
Theorem overlay_current_piece_is_lock (locked : locked_map) (p : Piece) :
  overlay_current_piece (create_grid locked) p = create_grid (lock_piece p locked).
Proof. apply overlay_is_lock_aux. Qed.

(** X5: locking an in-bounds piece keeps every key of the store at [x] in
    [0, 10) and [y < 20]. *)
Theorem lock_piece_store_bounds (p : Piece) (locked : locked_map) :
  in_bounds p = true -> store_in_bounds locked -> store_in_bounds (lock_piece p locked).
Proof. apply lock_store_bounds_aux. Qed.

(** Witness of X5: the T piece at its spawn on the empty store. *)
Lemma lock_piece_store_bounds_witness :
  store_in_bounds (lock_piece (get_new_piece KT) ∅).
Proof.
  apply lock_piece_store_bounds; [vm_compute; reflexivity|].
  intros x y [c Hc]. rewrite lookup_empty in Hc. discriminate.
Defined.

(** X6: on any grid, when the store's keys have [x] in [0, 10) and
    [y < 20], [clear_rows] returns the number of completed rows of the
    grid and a store whose keys again have [x] in [0, 10) and [y < 20]
    (no cell is pushed below the bottom), holding only colors of the
    old store. *)
Theorem clear_rows_store_bounds (g : grid_t) (locked m : locked_map) (n : Z) :
  store_in_bounds locked -> clear_rows g locked = Some (n, m) ->
  store_in_bounds m /\ n = Z.of_nat (length (completed_rows g)) /\
  (forall k c, m !! k = Some c -> exists k', locked !! k' = Some c).
Proof. apply clear_store_bounds_aux. Qed.

(** Witness of X6: the board with row 5 full and a cell at (0, 4). *)
Lemma clear_rows_store_bounds_witness :
  store_in_bounds {[(0, 5) := COLOR_T]} /\
  1 = Z.of_nat (length (completed_rows (create_grid board_row5))) /\
  (forall k c, ({[(0, 5) := COLOR_T]} : locked_map) !! k = Some c ->
     exists k', board_row5 !! k' = Some c).
Proof.
  apply (clear_rows_store_bounds (create_grid board_row5) board_row5).
  - intros x y Hk. apply board_row5_in_grid, in_grid_spec in Hk. lia.
  - vm_compute. reflexivity.
Defined.


(** X8: a successful rotation attempt gives a valid placement in the next
    rotation state, in the same row and of the same shape, with the pivot
    moved by at most two columns; a failed one gives back the piece
    unchanged. *)
Theorem rotation_outcome (p : Piece) (g : grid_t) :
  (fst (try_rotate_with_kicks p g) = true ->
     valid_space (snd (try_rotate_with_kicks p g)) g = true /\
     rotation (snd (try_rotate_with_kicks p g)) = (rotation p + 1) mod 4 /\
     py (snd (try_rotate_with_kicks p g)) = py p /\
     shape_index (snd (try_rotate_with_kicks p g)) = shape_index p /\
     px p - 2 <= px (snd (try_rotate_with_kicks p g)) <= px p + 2) /\
  (fst (try_rotate_with_kicks p g) = false -> snd (try_rotate_with_kicks p g) = p).
Proof.
  destruct (try_rotate_with_kicks p g) as [b q] eqn:E. cbn [fst snd].
  exact (rotate_result p q b g E).
Qed.



(** X10: gravity and the keys of one frame, from an in-bounds piece,
    always finish (the hard-drop loop terminates), leave the piece in
    bounds, and keep a valid placement valid. *)
Theorem frame_moves_keep_valid (locked : locked_map) (p : Piece) (ch : bool) (inp : FrameInput) :
  in_bounds p = true ->
  exists p' ch', frame_moves locked p ch inp = Some (p', ch') /\ in_bounds p' = true /\
    (valid_space p (create_grid locked) = true -> valid_space p' (create_grid locked) = true).
Proof. apply frame_moves_ok. Qed.

(** Witness of X10: the T piece at its spawn, hard-dropped on the empty store. *)
Lemma frame_moves_keep_valid_witness :
  exists p' ch', frame_moves ∅ (get_new_piece KT) false drop_input = Some (p', ch') /\
    in_bounds p' = true /\
    (valid_space (get_new_piece KT) (create_grid ∅) = true ->
     valid_space p' (create_grid ∅) = true).
Proof. apply frame_moves_keep_valid. vm_compute. reflexivity. Defined.

(** X11: in every state of [main]'s loop, every locked key has [x] in
    [0, 10) and [y < 20] (cells above the top included), every locked
    color is one of the seven piece colors, the current and next pieces
    are in bounds, [change_piece] is false, the score is nonnegative, and
    the next frame finishes whatever the input. *)
Theorem reachable_game_inv (st : Game) :
  reachable st ->
  store_in_bounds (locked_positions st) /\
  (forall k c, locked_positions st !! k = Some c -> In c SHAPE_COLORS) /\
  in_bounds (current_piece st) = true /\ in_bounds (next_piece st) = true /\
  change_piece st = false /\ 0 <= score st /\
  forall inp, exists st', frame st inp = Some st'.
Proof.
  intros Hr. pose proof (reachable_inv st Hr) as Hi.
  destruct Hi as (H1 & H2 & H3 & H4 & H5 & H6).
  split; [exact H1|]. split; [exact H2|]. split; [exact H3|]. split; [exact H4|].
  split; [exact H5|]. split; [exact H6|].
  intros inp. apply frame_progress, (reachable_inv st Hr).
Qed.

(** Witness of X11: the first state of a game. *)
Lemma reachable_game_inv_witness :
  exists st', frame (initial_game KO KT) drop_input = Some st'.
Proof.
  destruct (reachable_game_inv (initial_game KO KT) (reach_init KO KT))
    as (_ & _ & _ & _ & _ & _ & H).
  exact (H drop_input).
Defined.

(** X12: in a frame where the piece lands, the new store is the result of
    [clear_rows] on the store with the piece locked (and its grid), the
    score adds the award for the cleared count, the next piece becomes
    current, a new piece of the drawn kind is next, and the game stops
    exactly when the new store is lost. *)
Theorem frame_lock_step (st st' : Game) (inp : FrameInput) (p : Piece) :
  frame_moves (locked_positions st) (current_piece st) (change_piece st) inp = Some (p, true) ->
  frame st inp = Some st' ->
  exists n,
    clear_rows (create_grid (lock_piece p (locked_positions st)))
               (lock_piece p (locked_positions st)) = Some (n, locked_positions st') /\
    score st' = score_after_clear n (score st) /\
    current_piece st' = next_piece st /\ next_piece st' = get_new_piece (new_kind inp) /\
    change_piece st' = false /\
    run st' = negb (check_lost (locked_positions st')) && run st.
Proof.
  intros Hm Hf. unfold frame in Hf. rewrite Hm in Hf. cbv beta iota zeta in Hf.
  rewrite overlay_is_lock_aux in Hf. revert Hf.
  destruct (clear_rows (create_grid (lock_piece p (locked_positions st)))
              (lock_piece p (locked_positions st))) as [[n m]|] eqn:Hcl;
    intros Hf; [|discriminate].
  injection Hf as <-. exists n.
  cbn [locked_positions current_piece next_piece change_piece score run].
  split; [reflexivity|]. split; [reflexivity|]. split; [reflexivity|].
  split; [reflexivity|]. split; [reflexivity|].
  destruct (check_lost m); reflexivity.
Qed.

(** Witness of X12: the first frame of a game hard-drops an O piece. *)
Lemma frame_lock_step_witness :
  exists n,
    clear_rows (create_grid (lock_piece ex_drop_piece ∅)) (lock_piece ex_drop_piece ∅) =
      Some (n, locked_positions ex_landed) /\
    score ex_landed = score_after_clear n 0 /\
    current_piece ex_landed = get_new_piece KT /\ next_piece ex_landed = get_new_piece KT /\
    change_piece ex_landed = false /\
    run ex_landed = negb (check_lost (locked_positions ex_landed)) && true.
Proof.
  apply (frame_lock_step ex_start ex_landed drop_input ex_drop_piece);
    vm_compute; reflexivity.
Defined.

(** X13: a frame never lowers the score. *)
Theorem frame_score_monotone (st st' : Game) (inp : FrameInput) :
  frame st inp = Some st' -> score st <= score st'.
Proof.
  unfold frame.
  destruct (frame_moves (locked_positions st) (current_piece st) (change_piece st) inp)
    as [[p ch]|]; [|discriminate].
  destruct ch; cbv beta iota zeta.
  - destruct (clear_rows (overlay_current_piece (create_grid (locked_positions st)) p)
                (lock_piece p (locked_positions st))) as [[n m]|]; [|discriminate].
    intros Hf. injection Hf as <-. cbn [score]. apply score_after_clear_ge.
  - intros Hf. injection Hf as <-. cbn [score]. lia.
Qed.

(** Witness of X13: the first frame of a game. *)
Lemma frame_score_monotone_witness : score ex_start <= score ex_landed.
Proof. apply (frame_score_monotone ex_start ex_landed drop_input). vm_compute. reflexivity. Defined.
